(** * Deep Q-learning driver ([anyrl/algos/dqn.py]): a shallow embedding

    The file follows the class [DQN]: the discounted n-step return
    ([_discounted_rewards]), the batch encoding ([feed_dict]), the weighted
    loss and the target synchronisation built by [__init__], and the training
    loop [train].

    Numbers.  Python integers are unbounded and are [Z].  Rewards, weights,
    losses, the discount factor and clock readings are exact rationals [Q]
    compared with [==]: the arithmetic laws used below are those of exact
    numbers, rounding of binary floating point is outside this model. *)

From Stdlib Require Import QArith Qpower ZArith List Lia Bool.
From stdpp Require Import gmap strings list pretty.
Import ListNotations.

Local Open Scope Q_scope.

(** ** Python helpers *)

Module Py.

(** [enumerate(xs)], counting from [i]. *)
Fixpoint enumerate_from {A : Type} (i : nat) (xs : list A) : list (nat * A) :=
  match xs with
  | [] => []
  | x :: xs' => (i, x) :: enumerate_from (S i) xs'
  end.

Definition enumerate {A : Type} (xs : list A) : list (nat * A) :=
  enumerate_from 0 xs.

(** [x ** n] for a natural exponent; [x ** 0] is [1], also for [x = 0]. *)
Definition pow (x : Q) (n : nat) : Q := Qpower x (Z.of_nat n).

(** [[x] * n]: the empty list when [n <= 0]. *)
Definition replicate {A : Type} (x : A) (n : Z) : list A :=
  List.repeat x (Z.to_nat n).

(** The position a subscript [xs[i]] denotes in a list of length [len]:
    negative subscripts count from the end, anything outside
    [-len <= i < len] raises [IndexError]. *)
Definition index (len : nat) (i : Z) : option nat :=
  if (0 <=? i)%Z then
    if (i <? Z.of_nat len)%Z then Some (Z.to_nat i) else None
  else
    if (- Z.of_nat len <=? i)%Z then Some (Z.to_nat (i + Z.of_nat len)) else None.

(** [xs[i] = v]; [None] stands for [IndexError]. *)
Definition setitem {A : Type} (xs : list A) (i : Z) (v : A) : option (list A) :=
  match index (length xs) i with
  | Some k => Some (<[k := v]> xs)
  | None => None
  end.

End Py.

(** ** Transitions *)

Section Transitions.

Context {Obs : Type}.

(** A transition dict, with the keys [DQN] reads.  [action] is
    [model_outs['actions'][0]]; [new_obs = None] marks a terminal
    transition. *)
Record transition : Type := Transition {
  obs : Obs;
  action : Z;
  rewards : list Q;
  new_obs : option Obs;
  is_last : bool;
  episode_id : Z;
  episode_step : Z;
  total_reward : Q;
  weight : Q
}.

End Transitions.

Arguments transition : clear implicits.

(** ** [DQN._discounted_rewards] *)

Section DiscountedRewards.

Variable discount : Q.

(** One turn of the loop body: [res += rew * (self.discount ** i)]. *)
Definition discounted_step (res : Q) (p : nat * Q) : Q :=
  res + snd p * Py.pow discount (fst p).

Definition _discounted_rewards (rews : list Q) : Q :=
  fold_left discounted_step (Py.enumerate rews) 0.

(** The sum [r_0·γ^0 + ... + r_(k-1)·γ^(k-1)] written as the spec writes
    it, by index. *)
Fixpoint sum_below (k : nat) (f : nat -> Q) : Q :=
  match k with
  | O => 0
  | S k' => sum_below k' f + f k'
  end.

Definition discounted_sum (rews : list Q) : Q :=
  sum_below (length rews) (fun i => nth i rews 0 * Py.pow discount i).

End DiscountedRewards.

(** ** Tensors of shape [(None,)] *)

Module Tensor.

(** Element-wise product with TensorFlow's broadcasting of a one-element
    operand; [None] is the shape error of incompatible lengths. *)
Definition mul (a b : list Q) : option (list Q) :=
  if (length a =? length b)%nat then Some (zip_with Qmult a b)
  else match a, b with
       | [x], _ => Some (map (Qmult x) b)
       | _, [y] => Some (map (fun x => x * y) a)
       | _, _ => None
       end.

Definition reduce_sum (a : list Q) : Q := fold_right Qplus 0 a.

(** [tf.reduce_mean]; the mean of an empty tensor is not a number. *)
Definition reduce_mean (a : list Q) : option Q :=
  match a with
  | [] => None
  | _ => Some (reduce_sum a / inject_Z (Z.of_nat (length a)))
  end.

End Tensor.

(** ** The session's variables and [update_target] *)

Section Session.

Context {V : Type}.

(** [tf.assign(dst, src)] run in a session: reading an uninitialised
    source fails. *)
Definition assign (dst src : string) (s : gmap string V) : option (gmap string V) :=
  match s !! src with
  | Some v => Some (<[dst := v]> s)
  | None => None
  end.

(** [tf.group] of the assign ops, the assignments taken in list order. *)
Fixpoint run_assigns (assigns : list (string * string)) (s : gmap string V)
  : option (gmap string V) :=
  match assigns with
  | [] => Some s
  | (dst, src) :: rest =>
      match assign dst src s with
      | Some s' => run_assigns rest s'
      | None => None
      end
  end.

(** [zip(target_net.variables, online_net.variables)], each pair assigned. *)
Definition update_target (target_vars online_vars : list string)
  : gmap string V -> option (gmap string V) :=
  run_assigns (zip target_vars online_vars).

End Session.

(** ** [DQN.__init__] (loss part), [DQN.feed_dict] and [DQN.optimize] *)

Section Encoder.

Context {Obs Vecs V : Type}.

(** [online_net.obs_vectorizer.to_vecs]. *)
Variable to_vecs : list Obs -> Vecs.
(** [online_net.transition_loss(target_net, ...)] evaluated in a session:
    the per-sample losses for the fed observations, actions, returns,
    next observations, terminal flags and discounts. *)
Variable transition_loss :
  gmap string V -> Vecs -> list Z -> list Q -> Vecs -> list bool -> list Q -> list Q.
Variable discount : Q.

(** The feed dict, one field per placeholder. *)
Record feed : Type := Feed {
  obses_ph : Vecs;
  actions_ph : list Z;
  rews_ph : list Q;
  terminals_ph : list bool;
  discounts_ph : list Q;
  weights_ph : list Q;
  new_obses_ph : Vecs
}.

Definition is_none {A : Type} (x : option A) : bool :=
  match x with None => true | Some _ => false end.

(** The loop of [feed_dict] that fills [new_obses]. *)
Definition new_obses_append (acc : list Obs) (trans : transition Obs) : list Obs :=
  match new_obs trans with
  | None => acc ++ [obs trans]
  | Some o => acc ++ [o]
  end.

Definition new_obses_of (transitions : list (transition Obs)) : list Obs :=
  fold_left new_obses_append transitions [].

Definition feed_dict (transitions : list (transition Obs)) : feed :=
  {| obses_ph := to_vecs (map obs transitions);
     actions_ph := map action transitions;
     rews_ph := map (fun t => _discounted_rewards discount (rewards t)) transitions;
     terminals_ph := map (fun t => is_none (new_obs t)) transitions;
     discounts_ph := map (fun t => Py.pow discount (length (rewards t))) transitions;
     weights_ph := map weight transitions;
     new_obses_ph := to_vecs (new_obses_of transitions) |}.

(** [self.losses = self.weights_ph * losses]. *)
Definition dqn_losses (s : gmap string V) (fd : feed) : option (list Q) :=
  Tensor.mul (weights_ph fd)
    (transition_loss s (obses_ph fd) (actions_ph fd) (rews_ph fd)
       (new_obses_ph fd) (terminals_ph fd) (discounts_ph fd)).

(** [self.loss = tf.reduce_mean(self.losses)]. *)
Definition dqn_loss (s : gmap string V) (fd : feed) : option Q :=
  match dqn_losses s fd with
  | Some l => Tensor.reduce_mean l
  | None => None
  end.

(** [tf.train.AdamOptimizer(learning_rate, epsilon).minimize(objective)]:
    the op, as its effect on the session's variables under a feed. *)
Variable adam_minimize :
  Q -> Q -> (gmap string V -> feed -> option Q) ->
  gmap string V -> feed -> gmap string V.

Definition optimize (learning_rate epsilon : Q)
  : gmap string V -> feed -> gmap string V :=
  adam_minimize learning_rate epsilon dqn_loss.

(** The observation the loop of [feed_dict] appends for a transition, as a
    function of the transition. *)
Definition next_obs_row (t : transition Obs) : Obs :=
  match new_obs t with
  | None => obs t
  | Some o => o
  end.

(** The mean over the batch of weight times per-sample loss, by index. *)
Definition weighted_mean (transitions : list (transition Obs)) (per_sample : list Q) : Q :=
  sum_below (length transitions)
    (fun i => nth i (map weight transitions) 0 * nth i per_sample 0)
  / inject_Z (Z.of_nat (length transitions)).

End Encoder.

(** ** [DQN.train]: collaborators, state and outcome *)

(** The replay buffer: [add_sample], the [size] property, [sample] (which may
    advance the buffer's random state) and [update_weights]. *)
Class ReplayBuffer (Obs B : Type) : Type := {
  add_sample : B -> transition Obs -> B;
  buf_size : B -> Z;
  sample : B -> Z -> list (transition Obs) * B;
  update_weights : B -> list (transition Obs) -> list Q -> B
}.

(** The player: [play()] steps the environments with the current online
    network and returns the transitions gathered. *)
Class Player (Obs V P : Type) : Type := {
  play : P -> gmap string V -> list (transition Obs) * P
}.

(** Exceptions that leave [train]. *)
Inductive error : Type :=
| IndexError           (* list assignment index out of range *)
| FailedPrecondition   (* a variable is read before it has a value *)
| InvalidArgument      (* weights and losses of incompatible shapes *)
| NotFound.            (* no checkpoint at restore_path *)

(** How a run of [train] ends: the loop condition fails, the timeout
    [return], an exception, or the model's fuel is spent. *)
Inductive outcome : Type :=
| LoopExit
| TimedOut
| Raised (e : error)
| OutOfFuel.

(** The calls [train] makes on its collaborators, in order.  A gradient step
    is recorded with the value of [steps_taken] and the buffer's size at the
    test of line 183. *)
Inductive event {Obs : Type} : Type :=
| EvUpdateTarget
| EvRestore (path : string)
| EvPlay (pulled : nat)
| EvHandleEp (steps : Z) (rew : Q) (env_rewards : list Q)
| EvMakedirs (path : string)
| EvSave (path : string) (global_step : Z)
| EvAddSample (trans : transition Obs)
| EvOptimize (at_step : Z) (buffered : Z) (batch : list (transition Obs))
| EvUpdateWeights (batch : list (transition Obs)) (losses : list Q).

Arguments event : clear implicits.

(** The keyword arguments of [train]. *)
Record config : Type := Config {
  num_steps : Z;
  train_interval : Z;
  target_interval : Z;
  batch_size : Z;
  min_buffer_size : Z;
  timeout : option Q;
  save_interval : option Z;
  restore_path : option string;
  num_envs : Z
}.

(** The defaults of the signature, for a given [num_steps]. *)
Definition default_config (n : Z) : config :=
  {| num_steps := n; train_interval := 1%Z; target_interval := 8192%Z;
     batch_size := 32%Z; min_buffer_size := 20000%Z; timeout := None;
     save_interval := None; restore_path := None; num_envs := 1%Z |}.

(** The local variables of [train]. *)
Record locals : Type := Locals {
  steps_taken : Z;
  num_episodes : Z;
  next_target_update : Z;
  next_train_step : Z;
  start_time : Q;
  env_rewards : list Q
}.

Section World.

Context {Obs V B P : Type}.

(** Everything outside [train]'s locals that the loop reads or changes:
    the session's variables, the buffer, the player, the schedules'
    counters, how often [time.time()] was read, the checkpoint files and
    directories on disk, and the trace of calls. *)
Record world : Type := World {
  sess : gmap string V;
  replay : B;
  player : P;
  schedules : list Z;
  time_calls : nat;
  disk : gmap string (gmap string V);
  dirs : gset string;
  log : list (event Obs)
}.

Definition set_sess (s : gmap string V) (w : world) : world :=
  {| sess := s; replay := replay w; player := player w; schedules := schedules w;
     time_calls := time_calls w; disk := disk w; dirs := dirs w; log := log w |}.

Definition set_replay (b : B) (w : world) : world :=
  {| sess := sess w; replay := b; player := player w; schedules := schedules w;
     time_calls := time_calls w; disk := disk w; dirs := dirs w; log := log w |}.

Definition set_player (p : P) (w : world) : world :=
  {| sess := sess w; replay := replay w; player := p; schedules := schedules w;
     time_calls := time_calls w; disk := disk w; dirs := dirs w; log := log w |}.

Definition set_schedules (c : list Z) (w : world) : world :=
  {| sess := sess w; replay := replay w; player := player w; schedules := c;
     time_calls := time_calls w; disk := disk w; dirs := dirs w; log := log w |}.

Definition tick (w : world) : world :=
  {| sess := sess w; replay := replay w; player := player w; schedules := schedules w;
     time_calls := S (time_calls w); disk := disk w; dirs := dirs w; log := log w |}.

Definition set_disk (d : gmap string (gmap string V)) (w : world) : world :=
  {| sess := sess w; replay := replay w; player := player w; schedules := schedules w;
     time_calls := time_calls w; disk := d; dirs := dirs w; log := log w |}.

Definition set_dirs (d : gset string) (w : world) : world :=
  {| sess := sess w; replay := replay w; player := player w; schedules := schedules w;
     time_calls := time_calls w; disk := disk w; dirs := d; log := log w |}.

Definition emit (e : event Obs) (w : world) : world :=
  {| sess := sess w; replay := replay w; player := player w; schedules := schedules w;
     time_calls := time_calls w; disk := disk w; dirs := dirs w; log := log w ++ [e] |}.

(** A step of the loop either goes on with a new state or raises, leaving
    the state reached. *)
Inductive result : Type :=
| Ok (st : world * locals)
| Raise (e : error) (st : world * locals).

Definition bind (r : result) (k : world * locals -> result) : result :=
  match r with
  | Ok st => k st
  | Raise e st => Raise e st
  end.

End World.

Arguments world : clear implicits.
Arguments result : clear implicits.

(** ** Checkpoints *)

(** [needle in hay] on strings. *)
Fixpoint contains (needle hay : string) : bool :=
  String.prefix needle hay ||
  match hay with
  | EmptyString => false
  | String _ hay' => contains needle hay'
  end.

(** [os.path.join(a, b)] for a relative [b] and an [a] without a trailing
    separator. *)
Definition osp_join (a b : string) : string := a +:+ "/" +:+ b.

Definition checkdir : string := osp_join "." "checkpoints_rainbow/model".

(** The file prefix [saver.save(sess, path, global_step=n)] writes. *)
Definition save_path (path : string) (global_step : Z) : string :=
  path +:+ "-" +:+ pretty global_step.

(** The saver's [var_list]: the global variables whose name does not contain
    [ScheduleCounter]. *)
Definition var_list (all_variables : list string) : list string :=
  List.filter (fun name => negb (contains "ScheduleCounter" name)) all_variables.

(** What a saver over [vars] writes: the session's values of [vars]. *)
Definition snapshot {V : Type} (vars : list string) (s : gmap string V) : gmap string V :=
  filter (fun kv : string * V => kv.1 ∈ vars) s.

(** [a < b] on rationals, as a boolean. *)
Definition Qltb (a b : Q) : bool := negb (Qle_bool b a).

(** ** [DQN.train]: the loop *)

Section Train.

Context {Obs Vecs V B P : Type}.
Context {RB : ReplayBuffer Obs B} {PL : Player Obs V P}.

(** The [DQN] object: its networks' variables, vectorizer, loss and
    discount. *)
Variable to_vecs : list Obs -> Vecs.
Variable transition_loss :
  gmap string V -> Vecs -> list Z -> list Q -> Vecs -> list bool -> list Q -> list Q.
Variable discount : Q.
Variables target_vars online_vars : list string.

(** The graph's [GLOBAL_VARIABLES] collection, the [optimize_op] argument
    as its effect on the session, and the readings of [time.time()]: the
    [n]-th call returns [clock n]. *)
Variable all_variables : list string.
Variable optimize_op : gmap string V -> @feed Vecs -> gmap string V.
Variable clock : nat -> Q.

Local Abbreviation world := (world Obs V B P).
Local Abbreviation state := (world * locals)%type.
Local Abbreviation result := (result Obs V B P).

(** [sess.run(self.update_target)]. *)
Definition run_update_target (w : world) : option world :=
  match update_target target_vars online_vars (sess w) with
  | Some s => Some (emit EvUpdateTarget (set_sess s w))
  | None => None
  end.

(** [graph.restore(sess, restore_path)]: the checkpoint's values replace
    the session's. *)
Definition restore (path : string) (w : world) : option world :=
  match disk w !! path with
  | Some snap => Some (emit (EvRestore path) (set_sess (snap ∪ sess w) w))
  | None => None
  end.

(** [save_interval and num_episodes % save_interval == 0]. *)
Definition save_due (cfg : config) (l : locals) : bool :=
  match save_interval cfg with
  | Some k => negb (k =? 0)%Z && (num_episodes l mod k =? 0)%Z
  | None => false
  end.

(** Lines 171-174: [makedirs] and [saver.save]. *)
Definition save_checkpoint (l : locals) (w : world) : world :=
  let w1 := emit (EvMakedirs checkdir) (set_dirs ({[ checkdir ]} ∪ dirs w) w) in
  emit (EvSave checkdir (num_episodes l))
    (set_disk (<[ save_path checkdir (num_episodes l)
                  := snapshot (var_list all_variables) (sess w1) ]> (disk w1)) w1).

(** Lines 166-176: the bookkeeping of an episode's last transition. *)
Definition handle_episode (cfg : config) (trans : transition Obs) (st : state) : result :=
  let (w, l) := st in
  if is_last trans then
    match Py.setitem (env_rewards l) (episode_id trans) (total_reward trans) with
    | None => Raise IndexError st
    | Some er =>
        let l1 := {| steps_taken := steps_taken l; num_episodes := num_episodes l;
                     next_target_update := next_target_update l;
                     next_train_step := next_train_step l;
                     start_time := start_time l; env_rewards := er |} in
        let w1 := emit (EvHandleEp (episode_step trans + 1) (total_reward trans) er) w in
        let w2 := if save_due cfg l1 then save_checkpoint l1 w1 else w1 in
        Ok (w2,
            {| steps_taken := steps_taken l1; num_episodes := num_episodes l1 + 1;
               next_target_update := next_target_update l1;
               next_train_step := next_train_step l1;
               start_time := start_time l1; env_rewards := env_rewards l1 |})
    end
  else Ok st.

(** Lines 179-182: the sample enters the buffer, the step is counted and
    every schedule advances by one. *)
Definition add_to_replay (trans : transition Obs) (st : state) : state :=
  let (w, l) := st in
  (set_schedules (map (fun c => c + 1)%Z (schedules w))
     (emit (EvAddSample trans) (set_replay (add_sample (replay w) trans) w)),
   {| steps_taken := steps_taken l + 1; num_episodes := num_episodes l;
      next_target_update := next_target_update l;
      next_train_step := next_train_step l;
      start_time := start_time l; env_rewards := env_rewards l |}).

(** The condition of line 183. *)
Definition train_due (cfg : config) (st : state) : bool :=
  (min_buffer_size cfg <=? buf_size (replay (fst st)))%Z
  && (next_train_step (snd st) <=? steps_taken (snd st))%Z.

(** Lines 183-189: the gradient step. *)
Definition train_step (cfg : config) (st : state) : result :=
  let (w, l) := st in
  if train_due cfg st then
    let l1 := {| steps_taken := steps_taken l; num_episodes := num_episodes l;
                 next_target_update := next_target_update l;
                 next_train_step := steps_taken l + train_interval cfg;
                 start_time := start_time l; env_rewards := env_rewards l |} in
    let (batch, b1) := sample (replay w) (batch_size cfg) in
    let w1 := set_replay b1 w in
    let fd := feed_dict to_vecs discount batch in
    match dqn_losses transition_loss (sess w1) fd with
    | None => Raise InvalidArgument (w1, l1)
    | Some losses =>
        let w2 := emit (EvOptimize (steps_taken l) (buf_size (replay w)) batch)
                    (set_sess (optimize_op (sess w1) fd) w1) in
        Ok (emit (EvUpdateWeights batch losses)
              (set_replay (update_weights (replay w2) batch losses) w2), l1)
    end
  else Ok st.

(** Lines 191-193: the periodic target update. *)
Definition target_step (cfg : config) (st : state) : result :=
  let (w, l) := st in
  if (next_target_update l <=? steps_taken l)%Z then
    let l1 := {| steps_taken := steps_taken l; num_episodes := num_episodes l;
                 next_target_update := steps_taken l + target_interval cfg;
                 next_train_step := next_train_step l;
                 start_time := start_time l; env_rewards := env_rewards l |} in
    match run_update_target w with
    | Some w1 => Ok (w1, l1)
    | None => Raise FailedPrecondition (w, l1)
    end
  else Ok st.

(** The body of [for trans in transitions]. *)
Definition process_transition (cfg : config) (trans : transition Obs) (st : state) : result :=
  bind (handle_episode cfg trans st)
    (fun st1 => bind (train_step cfg (add_to_replay trans st1)) (target_step cfg)).

Fixpoint process_all (cfg : config) (transitions : list (transition Obs)) (st : state)
  : result :=
  match transitions with
  | [] => Ok st
  | trans :: rest => bind (process_transition cfg trans st) (process_all cfg rest)
  end.

(** Line 161: [timeout is not None and time.time() - start_time > timeout];
    the clock is read only when a timeout is set. *)
Definition timed_out (cfg : config) (st : state) : bool * state :=
  match timeout cfg with
  | Some t =>
      (Qltb t (clock (time_calls (fst st)) - start_time (snd st)),
       (tick (fst st), snd st))
  | None => (false, st)
  end.

(** [transitions = player.play()]. *)
Definition pull (st : state) : list (transition Obs) * state :=
  let (ts, p) := play (player (fst st)) (sess (fst st)) in
  (ts, (emit (EvPlay (length ts)) (set_player p (fst st)), snd st)).

(** The [while] loop; [fuel] bounds the number of turns of the model. *)
Fixpoint train_loop (fuel : nat) (cfg : config) (st : state) : outcome * state :=
  match fuel with
  | O => (OutOfFuel, st)
  | S fuel' =>
      if (steps_taken (snd st) <? num_steps cfg)%Z then
        let (late, st1) := timed_out cfg st in
        if late then (TimedOut, st1)
        else
          let (ts, st2) := pull st1 in
          match process_all cfg ts st2 with
          | Ok st3 => train_loop fuel' cfg st3
          | Raise e st3 => (Raised e, st3)
          end
      else (LoopExit, st)
  end.

(** Lines 138-158, after the first target update: the locals, once the
    clock has been read. *)
Definition initial_locals (cfg : config) (now : Q) : locals :=
  {| steps_taken := 0; num_episodes := 0;
     next_target_update := target_interval cfg;
     next_train_step := train_interval cfg;
     start_time := now;
     env_rewards := Py.replicate 0 (num_envs cfg) |}.

(** Lines 136-158: everything before the loop. *)
Definition train_setup (cfg : config) (w : world) : result :=
  match run_update_target w with
  | None => Raise FailedPrecondition (w, initial_locals cfg 0)
  | Some w1 =>
      let l := initial_locals cfg (clock (time_calls w1)) in
      let w2 := tick w1 in
      match restore_path cfg with
      | None => Ok (w2, l)
      | Some path =>
          match restore path w2 with
          | Some w3 => Ok (w3, l)
          | None => Raise NotFound (w2, l)
          end
      end
  end.

Definition train (fuel : nat) (cfg : config) (w : world) : outcome * state :=
  match train_setup cfg w with
  | Ok st => train_loop fuel cfg st
  | Raise e st => (Raised e, st)
  end.

(** The steps at which a gradient step ran, read off the trace. *)
Definition optimize_steps (tr : list (event Obs)) : list Z :=
  omap (fun e => match e with EvOptimize n _ _ => Some n | _ => None end) tr.

(** The transitions that entered the replay buffer, read off the trace. *)
Definition added_samples (tr : list (event Obs)) : list (transition Obs) :=
  omap (fun e => match e with EvAddSample t => Some t | _ => None end) tr.

(** The checkpoints written, as (path, global step), read off the trace. *)
Definition saves (tr : list (event Obs)) : list (string * Z) :=
  omap (fun e => match e with EvSave p n => Some (p, n) | _ => None end) tr.

End Train.

(** ** Test doubles

    A list-backed replay buffer, a stepper that returns the same transitions
    on every call, and a small concrete session, used to run the definitions
    above on concrete inputs. *)

Definition list_buffer {Obs : Type} : ReplayBuffer Obs (list (transition Obs)) :=
  {| add_sample := fun b t => b ++ [t];
     buf_size := fun b => Z.of_nat (length b);
     sample := fun b n => (firstn (Z.to_nat n) b, b);
     update_weights := fun b _ _ => b |}.

Definition repeating_player {Obs V : Type} : Player Obs V (list (transition Obs)) :=
  {| play := fun p _ => (p, p) |}.

(** A one-step, non-terminal transition that does not end an episode. *)
Definition plain_step : transition nat :=
  {| obs := 0%nat; action := 0%Z; rewards := [1]; new_obs := Some 1%nat;
     is_last := false; episode_id := 0%Z; episode_step := 0%Z;
     total_reward := 1; weight := 1 |}.

(** A terminal transition that ends an episode of environment [id]. *)
Definition final_step (id : Z) : transition nat :=
  {| obs := 0%nat; action := 0%Z; rewards := [1]; new_obs := None;
     is_last := true; episode_id := id; episode_step := 0%Z;
     total_reward := 1; weight := 1 |}.

(** One online and one target variable, a schedule counter, nothing on disk. *)
Definition demo_world (ts : list (transition nat))
  : world nat Q (list (transition nat)) (list (transition nat)) :=
  {| sess := {[ "online/w" := 1; "target/w" := 0; "ScheduleCounter" := 0 ]};
     replay := []; player := ts; schedules := [0%Z]; time_calls := 0%nat;
     disk := ∅; dirs := ∅; log := [] |}.

(** The loss of the doubles: the fed returns themselves. *)
Definition demo_loss (_ : gmap string Q) (_ : list nat) (_ : list Z) (rews : list Q)
  (_ : list nat) (_ : list bool) (_ : list Q) : list Q := rews.

(** [train] on the doubles: identity vectorizer, a gradient step that adds
    one to the online variable, the given clock. *)
Definition demo_train (clock : nat -> Q) (fuel : nat) (cfg : config)
  (w : world nat Q (list (transition nat)) (list (transition nat))) :=
  train (RB := list_buffer) (PL := repeating_player)
    (fun l : list nat => l) demo_loss (99 # 100) ["target/w"] ["online/w"]
    ["online/w"; "target/w"; "ScheduleCounter"]
    (fun s _ => alter (fun v => v + 1) "online/w" s) clock fuel cfg w.

(** A clock that advances one second per reading, and one that stands still. *)
Definition ticking_clock (n : nat) : Q := inject_Z (Z.of_nat n).
Definition frozen_clock (_ : nat) : Q := 5.

(** ** Vocabulary of the statements below *)

(** A recorded gradient step saw a buffer of at least [min_buffer_size]. *)
Definition fired_when_filled {Obs : Type} (cfg : config) (e : event Obs) : Prop :=
  match e with
  | EvOptimize _ buffered _ => (min_buffer_size cfg <= buffered)%Z
  | _ => True
  end.

(** [k; 2k; ...; nk]. *)
Definition multiples (k : Z) (n : nat) : list Z :=
  map (fun j => k * Z.of_nat j)%Z (seq 1 n).

(** The cadence of gradient steps when the buffer test always passes: the
    steps taken so far are counted from zero, the next gradient step is due
    at the next multiple of [k], and the gradient steps so far ran at the
    multiples of [k] up to [steps_taken]. *)
Definition on_cadence {Obs V B P : Type} (k : Z) (st : world Obs V B P * locals) : Prop :=
  (0 <= steps_taken (snd st))%Z
  /\ next_train_step (snd st) = (k * (steps_taken (snd st) / k + 1))%Z
  /\ optimize_steps (log (fst st))
     = multiples k (Z.to_nat (steps_taken (snd st) / k)).

(** What holds of the state a run ends in: [I] unless it raised, [J e] when
    it raised [e]; and the same of one step's result. *)
Definition ends_with {Obs V B P : Type} (I : world Obs V B P * locals -> Prop)
    (J : error -> world Obs V B P * locals -> Prop)
    (r : outcome * (world Obs V B P * locals)) : Prop :=
  match fst r with
  | Raised e => J e (snd r)
  | _ => I (snd r)
  end.

Definition step_keeps {Obs V B P : Type} (I : world Obs V B P * locals -> Prop)
    (J : error -> world Obs V B P * locals -> Prop)
    (r : result Obs V B P) : Prop :=
  match r with
  | Ok st => I st
  | Raise e st => J e st
  end.

(** The reward list has one slot per environment, as [[0] * num_envs] made
    it. *)
Definition slots_match {Obs V B P : Type} (cfg : config)
    (st : world Obs V B P * locals) : Prop :=
  length (env_rewards (snd st)) = Z.to_nat (num_envs cfg).

(** The synthetic run of the cadence test: twelve steps, a gradient step
    every fourth, no minimum fill. *)
Definition cadence_config : config :=
  {| num_steps := 12; train_interval := 4; target_interval := 8192;
     batch_size := 2; min_buffer_size := 0; timeout := None;
     save_interval := None; restore_path := None; num_envs := 1 |}.

(** A run of one step with no minimum fill and one environment. *)
Definition one_step_config : config :=
  {| num_steps := 1; train_interval := 1; target_interval := 8192;
     batch_size := 2; min_buffer_size := 0; timeout := None;
     save_interval := None; restore_path := None; num_envs := 1 |}.

(** The same with a zero timeout. *)
Definition zero_timeout_config : config :=
  {| num_steps := 1; train_interval := 1; target_interval := 8192;
     batch_size := 2; min_buffer_size := 0; timeout := Some 0;
     save_interval := None; restore_path := None; num_envs := 1 |}.

(** A checkpoint in another directory, saved while the online variable was
    ahead of the target's. *)
Definition elsewhere : string := "elsewhere/model-0".

Definition restored_world (ts : list (transition nat))
  : world nat Q (list (transition nat)) (list (transition nat)) :=
  set_disk {[ elsewhere := {[ "online/w" := 7; "target/w" := 3 ]} ]} (demo_world ts).

(** A run that restores that checkpoint and takes no step. *)
Definition restoring_config : config :=
  {| num_steps := 0; train_interval := 1; target_interval := 8192;
     batch_size := 2; min_buffer_size := 0; timeout := None;
     save_interval := None; restore_path := Some elsewhere; num_envs := 1 |}.

(** A run of one step that restores that checkpoint and saves at every
    episode. *)
Definition saving_config : config :=
  {| num_steps := 1; train_interval := 1; target_interval := 8192;
     batch_size := 2; min_buffer_size := 0; timeout := None;
     save_interval := Some 1%Z; restore_path := Some elsewhere; num_envs := 1 |}.

(** The end-to-end scenario: ten steps, a gradient step at every step, a
    target update every fifth, each step ending an episode. *)
Definition scenario_config : config :=
  {| num_steps := 10; train_interval := 1; target_interval := 5;
     batch_size := 2; min_buffer_size := 0; timeout := None;
     save_interval := None; restore_path := None; num_envs := 1 |}.

(** The number of target updates and of episode callbacks in a trace. *)
Definition count_updates {Obs : Type} (tr : list (event Obs)) : nat :=
  length (List.filter (fun e => match e with EvUpdateTarget => true | _ => false end) tr).

Definition callback_rewards {Obs : Type} (tr : list (event Obs)) : list Q :=
  omap (fun e => match e with EvHandleEp _ rew _ => Some rew | _ => None end) tr.

(** ** Vocabulary of the further properties *)

(** A run that ended without an exception. *)
Definition not_raised (out : outcome) : Prop :=
  match out with
  | Raised _ => False
  | _ => True
  end.

(** What the episode callback is called with for a transition. *)
Definition episode_report {Obs : Type} (t : transition Obs) : Z * Q :=
  (episode_step t + 1, total_reward t)%Z.

(** The calls of the episode callback, as (steps, reward), the sizes of the
    pulls and their number, read off the trace. *)
Definition callbacks {Obs : Type} (tr : list (event Obs)) : list (Z * Q) :=
  omap (fun e => match e with EvHandleEp n rew _ => Some (n, rew) | _ => None end) tr.

Definition pulls {Obs : Type} (tr : list (event Obs)) : list nat :=
  omap (fun e => match e with EvPlay n => Some n | _ => None end) tr.

(** Gradient steps at least [k] apart, the first not before [lo]. *)
Fixpoint spaced (k lo : Z) (l : list Z) : Prop :=
  match l with
  | [] => True
  | x :: rest => (lo <= x)%Z /\ spaced k (x + k) rest
  end.

(** The earliest step the next gradient step may run at, after those of
    [l]. *)
Fixpoint due_after (k lo : Z) (l : list Z) : Z :=
  match l with
  | [] => lo
  | x :: rest => due_after k (x + k)%Z rest
  end.



(** A stepper that returns the same two transitions on every call, and a
    run of five steps on it, a target update every second step. *)
Definition pair_of_steps : list (transition nat) := [plain_step; final_step 0].

Definition overshoot_config : config :=
  {| num_steps := 5; train_interval := 2; target_interval := 2;
     batch_size := 2; min_buffer_size := 3; timeout := Some 100;
     save_interval := Some 2%Z; restore_path := None; num_envs := 1 |}.

Definition overshoot_run :=
  demo_train ticking_clock 10 overshoot_config (demo_world pair_of_steps).

(** What an added sample does to the reward list: an episode's last
    transition overwrites its slot. *)
Definition book {Obs : Type} (er : list Q) (t : transition Obs) : list Q :=
  if is_last t then
    match Py.setitem er (episode_id t) (total_reward t) with
    | Some er' => er'
    | None => er
    end
  else er.

(** The slot of [env_rewards] an episode-ending transition writes, among
    [n]. *)
Definition slot {Obs : Type} (n : nat) (t : transition Obs) : option nat :=
  if is_last t then Py.index n (episode_id t) else None.

(** * Properties *)

(** ** The discounted return *)

Section DiscountedRewardsFacts.

Variable discount : Q.

Lemma sum_below_ext (k : nat) (f g : nat -> Q) :
  (forall i, (i < k)%nat -> f i == g i) -> sum_below k f == sum_below k g.
Proof.
  induction k as [|k IH]; intros Hfg; simpl.
  - reflexivity.
  - rewrite IH by (intros i Hi; apply Hfg; lia).
    rewrite (Hfg k) by lia. reflexivity.
Qed.

(** Peeling the first term of a sum instead of the last. *)
Lemma sum_below_head (k : nat) (f : nat -> Q) :
  sum_below (S k) f == f O + sum_below k (fun i => f (S i)).
Proof.
  induction k as [|k IH].
  - simpl. ring.
  - change (sum_below (S (S k)) f) with (sum_below (S k) f + f (S k)).
    rewrite IH. simpl. ring.
Qed.

(** The loop invariant of [_discounted_rewards]: started at counter [i] with
    [res = acc], the loop adds the terms [rew_j * discount ** (i + j)]. *)
Lemma discounted_fold (rews : list Q) (i : nat) (acc : Q) :
  fold_left (discounted_step discount) (Py.enumerate_from i rews) acc
  == acc + sum_below (length rews)
             (fun j => nth j rews 0 * Py.pow discount (i + j)).
Proof.
  revert i acc. induction rews as [|r rews IH]; intros i acc.
  - simpl. ring.
  - cbn [Py.enumerate_from fold_left length]. rewrite IH, sum_below_head.
    unfold discounted_step. cbn [fst snd nth].
    rewrite Nat.add_0_r.
    rewrite (sum_below_ext (length rews)
               (fun j => nth j rews 0 * Py.pow discount (S i + j))
               (fun j => nth j rews 0 * Py.pow discount (i + S j))).
    + ring.
    + intros j _. rewrite Nat.add_succ_r. reflexivity.
Qed.

End DiscountedRewardsFacts.

Lemma pow_zero_exponent (x : Q) : Py.pow x 0 == 1.
Proof. reflexivity. Qed.

Lemma pow_one_exponent (x : Q) : Py.pow x 1 == x.
Proof. unfold Py.pow. simpl. reflexivity. Qed.

Lemma pow_zero_base (n : nat) : Py.pow 0 (S n) == 0.
Proof. unfold Py.pow. apply Qpower_0. lia. Qed.

(** With a zero discount every reward after the first is multiplied by zero. *)
Lemma discounted_fold_zero (rews : list Q) (i : nat) (acc : Q) :
  fold_left (discounted_step 0) (Py.enumerate_from (S i) rews) acc == acc.
Proof.
  revert i acc. induction rews as [|r rews IH]; intros i acc.
  - reflexivity.
  - cbn [Py.enumerate_from fold_left]. rewrite IH.
    unfold discounted_step. cbn [fst snd]. rewrite pow_zero_base. ring.
Qed.

Example discounted_rewards_three :
  _discounted_rewards (1 # 2) [1; 2; 4] == 3.
Proof. reflexivity. Qed.

Example discounted_rewards_empty (discount : Q) :
  _discounted_rewards discount [] = 0.
Proof. reflexivity. Qed.

(** C1. For every reward sequence and discount factor, [_discounted_rewards]
    returns the sum of [r_i * discount^i] over the sequence; with a zero
    discount it returns the first reward, and on a one-element sequence it
    returns that reward whatever the discount.  The function is a pure
    function of the discount and the rewards. *)
Theorem discounted_rewards_sum :
  (forall (discount : Q) (rews : list Q),
      _discounted_rewards discount rews == discounted_sum discount rews)
  /\ (forall (r0 : Q) (rest : list Q), _discounted_rewards 0 (r0 :: rest) == r0)
  /\ (forall (discount r0 : Q), _discounted_rewards discount [r0] == r0).
Proof.
  split; [|split].
  - intros discount rews. unfold _discounted_rewards, discounted_sum, Py.enumerate.
    rewrite discounted_fold. simpl (0 + _)%nat. ring.
  - intros r0 rest. unfold _discounted_rewards, Py.enumerate.
    cbn [Py.enumerate_from fold_left]. rewrite discounted_fold_zero.
    unfold discounted_step. cbn [fst snd]. rewrite pow_zero_exponent. ring.
  - intros discount r0. unfold _discounted_rewards, Py.enumerate.
    cbn [Py.enumerate_from fold_left]. unfold discounted_step. cbn [fst snd].
    rewrite pow_zero_exponent. ring.
Qed.

(** ** The batch encoding *)

Section EncoderFacts.

Context {Obs Vecs V : Type}.
Variable to_vecs : list Obs -> Vecs.
Variable discount : Q.

Lemma new_obses_fold (transitions : list (transition Obs)) (acc : list Obs) :
  fold_left new_obses_append transitions acc = acc ++ map next_obs_row transitions.
Proof.
  revert acc. induction transitions as [|t ts IH]; intros acc; simpl.
  - now rewrite app_nil_r.
  - rewrite IH. unfold new_obses_append, next_obs_row.
    destruct (new_obs t); now rewrite <- app_assoc.
Qed.

Lemma new_obses_of_map (transitions : list (transition Obs)) :
  new_obses_of transitions = map next_obs_row transitions.
Proof. unfold new_obses_of. now rewrite new_obses_fold. Qed.

Lemma is_none_true {A : Type} (x : option A) : is_none x = true <-> x = None.
Proof. destruct x; simpl; split; congruence. Qed.

End EncoderFacts.

(** C3. In the encoding of a batch, the per-sample discount of each
    transition is the discount factor raised to the length of that
    transition's reward sequence; for a one-step transition this is the
    discount factor itself. *)
Theorem feed_dict_discounts {Obs Vecs : Type} (to_vecs : list Obs -> Vecs)
    (discount : Q) (transitions : list (transition Obs)) (i : nat) (t : transition Obs) :
  transitions !! i = Some t ->
  length (discounts_ph (feed_dict to_vecs discount transitions)) = length transitions
  /\ discounts_ph (feed_dict to_vecs discount transitions) !! i
     = Some (Py.pow discount (length (rewards t)))
  /\ (length (rewards t) = 1%nat ->
      Py.pow discount (length (rewards t)) == discount).
Proof.
  intros Ht. cbn [feed_dict discounts_ph]. split; [|split].
  - apply length_map.
  - rewrite list_lookup_fmap, Ht. reflexivity.
  - intros ->. apply pow_one_exponent.
Qed.

Lemma feed_dict_discounts_witness :
  discounts_ph (feed_dict (fun l : list nat => l) (99 # 100) [plain_step]) !! 0%nat
  = Some (Py.pow (99 # 100) 1).
Proof.
  exact (proj1 (proj2 (feed_dict_discounts (fun l : list nat => l) (99 # 100)
                         [plain_step] 0 plain_step eq_refl))).
Defined.

(** C4. In the encoding of a batch, the terminal flag of a transition is
    true exactly when its [new_obs] is absent, and for such a transition the
    observation encoded as its next observation is its own [obs]: with a
    vectorizer that encodes row by row, the next-observation row equals the
    observation row. *)
Theorem feed_dict_terminal {Obs Vecs : Type} (to_vecs : list Obs -> Vecs)
    (discount : Q) (transitions : list (transition Obs)) (i : nat) (t : transition Obs) :
  transitions !! i = Some t ->
  (terminals_ph (feed_dict to_vecs discount transitions) !! i = Some true
   <-> new_obs t = None)
  /\ (new_obs t = None -> new_obses_of transitions !! i = Some (obs t))
  /\ (forall o, new_obs t = Some o -> new_obses_of transitions !! i = Some o)
  /\ (forall (Vec : Type) (row : Vecs -> nat -> option Vec) (to_vec : Obs -> Vec),
         (forall l j, row (to_vecs l) j = to_vec <$> l !! j) ->
         new_obs t = None ->
         row (new_obses_ph (feed_dict to_vecs discount transitions)) i
         = Some (to_vec (obs t))
         /\ row (obses_ph (feed_dict to_vecs discount transitions)) i
            = Some (to_vec (obs t))).
Proof.
  intros Ht. cbn [feed_dict terminals_ph new_obses_ph obses_ph].
  assert (Hnext : new_obses_of transitions !! i = Some (next_obs_row t)).
  { rewrite new_obses_of_map, list_lookup_fmap, Ht. reflexivity. }
  repeat split.
  - rewrite list_lookup_fmap, Ht. simpl. intros [= H]. now apply is_none_true.
  - intros H. rewrite list_lookup_fmap, Ht. simpl. f_equal. now apply is_none_true.
  - intros H. rewrite Hnext. unfold next_obs_row. now rewrite H.
  - intros o H. rewrite Hnext. unfold next_obs_row. now rewrite H.
  - rewrite H, Hnext. unfold next_obs_row. now rewrite H0.
  - rewrite H, list_lookup_fmap, Ht. reflexivity.
Qed.

Lemma feed_dict_terminal_witness :
  new_obses_of [plain_step; final_step 0] !! 1%nat = Some (obs (final_step 0)).
Proof.
  exact (proj1 (proj2 (feed_dict_terminal (fun l : list nat => l) (99 # 100)
                         [plain_step; final_step 0] 1 (final_step 0) eq_refl))
           eq_refl).
Defined.

(** ** The weighted loss *)

Lemma reduce_sum_by_index (l : list Q) :
  Tensor.reduce_sum l == sum_below (length l) (fun i => nth i l 0).
Proof.
  induction l as [|x l IH].
  - reflexivity.
  - cbn [length]. rewrite sum_below_head. cbn [Tensor.reduce_sum fold_right nth].
    fold (Tensor.reduce_sum l). rewrite IH. reflexivity.
Qed.

Lemma nth_zip_with_mul (a b : list Q) (i : nat) :
  length a = length b ->
  nth i (zip_with Qmult a b) 0 == nth i a 0 * nth i b 0.
Proof.
  revert b i. induction a as [|x a IH]; intros [|y b] i Hlen;
    try discriminate; destruct i; cbn [zip_with nth]; try ring.
  apply IH. now injection Hlen.
Qed.

Lemma mul_same_length (a b : list Q) :
  length a = length b -> Tensor.mul a b = Some (zip_with Qmult a b).
Proof. intros H. unfold Tensor.mul. now rewrite H, Nat.eqb_refl. Qed.

Lemma reduce_mean_nonempty (l : list Q) :
  (0 < length l)%nat ->
  Tensor.reduce_mean l
  = Some (Tensor.reduce_sum l / inject_Z (Z.of_nat (length l))).
Proof. destruct l; simpl; [lia | reflexivity]. Qed.

(** C6. For every non-empty batch for which the network returns one loss per
    sample, the weights fed are the transitions' [weight] fields as they
    are, and the scalar loss, which is the objective [optimize] hands to the
    optimizer, is the mean over the batch of weight times per-sample loss. *)
Theorem loss_is_weighted_mean {Obs Vecs V : Type} (to_vecs : list Obs -> Vecs)
    (transition_loss :
       gmap string V -> Vecs -> list Z -> list Q -> Vecs -> list bool -> list Q -> list Q)
    (discount : Q)
    (adam_minimize :
       Q -> Q -> (gmap string V -> @feed Vecs -> option Q) ->
       gmap string V -> @feed Vecs -> gmap string V)
    (learning_rate epsilon : Q)
    (s : gmap string V) (batch : list (transition Obs)) (per_sample : list Q) :
  let fd := feed_dict to_vecs discount batch in
  per_sample = transition_loss s (obses_ph fd) (actions_ph fd) (rews_ph fd)
                 (new_obses_ph fd) (terminals_ph fd) (discounts_ph fd) ->
  length per_sample = length batch ->
  (0 < length batch)%nat ->
  weights_ph fd = map weight batch
  /\ optimize transition_loss adam_minimize learning_rate epsilon
     = adam_minimize learning_rate epsilon (dqn_loss transition_loss)
  /\ exists loss : Q,
       dqn_loss transition_loss s fd = Some loss
       /\ loss == weighted_mean batch per_sample.
Proof.
  intros fd Hps Hlen Hpos. split; [reflexivity|]. split; [reflexivity|].
  unfold dqn_loss, dqn_losses. rewrite <- Hps.
  assert (Hw : length (weights_ph fd) = length per_sample).
  { subst fd. cbn [feed_dict weights_ph]. rewrite length_map. now symmetry. }
  rewrite (mul_same_length _ _ Hw).
  assert (Hz : length (zip_with Qmult (weights_ph fd) per_sample) = length batch).
  { rewrite length_zip_with. lia. }
  rewrite reduce_mean_nonempty by lia.
  eexists. split; [reflexivity|].
  unfold weighted_mean. rewrite reduce_sum_by_index, Hz.
  apply Qdiv_comp; [|reflexivity].
  apply sum_below_ext. intros i _. now apply nth_zip_with_mul.
Qed.

Lemma loss_is_weighted_mean_witness :
  exists loss : Q,
    dqn_loss demo_loss (∅ : gmap string Q)
      (feed_dict (fun l : list nat => l) (99 # 100) [plain_step; final_step 0])
    = Some loss
    /\ loss == weighted_mean [plain_step; final_step 0] [1; 1].
Proof.
  exact (proj2 (proj2 (loss_is_weighted_mean (fun l : list nat => l) demo_loss (99 # 100)
                         (fun _ _ _ s _ => s) (1 # 16000) (3 # 20000) ∅
                         [plain_step; final_step 0] [1; 1]
                         eq_refl eq_refl (Nat.lt_0_succ 1)))).
Defined.

(** ** The target update *)

Section UpdateTargetFacts.

Context {V : Type}.
Implicit Types (s : gmap string V) (ps : list (string * string)).

(** What a group of assignments computes when no destination is assigned
    twice, no destination is also read, and every source has a value: each
    destination receives the value its source had, nothing else changes. *)
Lemma run_assigns_spec ps s :
  NoDup ps.*1 ->
  (forall d, d ∈ ps.*1 -> d ∉ ps.*2) ->
  (forall x, x ∈ ps.*2 -> is_Some (s !! x)) ->
  exists s', run_assigns ps s = Some s'
    /\ (forall d sr, (d, sr) ∈ ps -> s' !! d = s !! sr)
    /\ (forall x, x ∉ ps.*1 -> s' !! x = s !! x).
Proof.
  revert s. induction ps as [|[d sr] ps IH]; intros s Hnd Hdisj Hinit.
  - exists s. split; [reflexivity|]. split; [|reflexivity].
    intros d sr Hin. inversion Hin.
  - cbn [fmap list_fmap fst snd] in *. apply NoDup_cons in Hnd as [Hd Hnd].
    destruct (Hinit sr) as [v Hv]; [left|].
    assert (Hne : d <> sr).
    { intros ->. apply (Hdisj sr); left. }
    destruct (IH (<[d := v]> s)) as (s' & Hrun & Hdst & Hframe).
    + exact Hnd.
    + intros d' Hd' Hsrc. apply (Hdisj d'); right; assumption.
    + intros x Hx. destruct (decide (d = x)) as [->|Hdx].
      * rewrite lookup_insert_eq. eauto.
      * rewrite lookup_insert_ne by exact Hdx. apply Hinit. now right.
    + exists s'. split; [|split].
      * cbn [run_assigns]. unfold assign. rewrite Hv. exact Hrun.
      * intros d' sr' Hin. apply elem_of_cons in Hin as [[= -> ->]|Hin].
        -- rewrite Hframe by exact Hd. rewrite lookup_insert_eq. now symmetry.
        -- rewrite (Hdst _ _ Hin). apply lookup_insert_ne.
           intros ->. apply (Hdisj sr'); [left|right].
           apply list_elem_of_fmap. now exists (d', sr').
      * intros x Hx. apply not_elem_of_cons in Hx as [Hxd Hx].
        rewrite (Hframe _ Hx). apply lookup_insert_ne. congruence.
Qed.

(** Under the same conditions a second run changes nothing. *)
Lemma run_assigns_twice ps s s' :
  NoDup ps.*1 ->
  (forall d, d ∈ ps.*1 -> d ∉ ps.*2) ->
  (forall x, x ∈ ps.*2 -> is_Some (s !! x)) ->
  run_assigns ps s = Some s' ->
  run_assigns ps s' = Some s'.
Proof.
  intros Hnd Hdisj Hinit Hrun.
  destruct (run_assigns_spec ps s Hnd Hdisj Hinit) as (s1 & Hrun1 & Hdst & Hframe).
  assert (s1 = s') as -> by congruence.
  assert (Hsrc : forall x, x ∈ ps.*2 -> s' !! x = s !! x).
  { intros x Hx. apply Hframe. intros Hd. exact (Hdisj x Hd Hx). }
  destruct (run_assigns_spec ps s' Hnd Hdisj) as (s2 & Hrun2 & Hdst2 & Hframe2).
  { intros x Hx. rewrite (Hsrc x Hx). now apply Hinit. }
  rewrite Hrun2. f_equal. apply map_eq. intros x.
  destruct (decide (x ∈ ps.*1)) as [Hx|Hx].
  - apply list_elem_of_fmap in Hx as ([d sr] & -> & Hin). cbn [fst].
    rewrite (Hdst2 _ _ Hin), (Hdst _ _ Hin). apply Hsrc.
    apply list_elem_of_fmap. now exists (d, sr).
  - now apply Hframe2.
Qed.

(** The order in which the group runs its assignments does not matter. *)
Lemma run_assigns_any_order ps ps' s s' :
  NoDup ps.*1 ->
  (forall d, d ∈ ps.*1 -> d ∉ ps.*2) ->
  (forall x, x ∈ ps.*2 -> is_Some (s !! x)) ->
  run_assigns ps s = Some s' ->
  ps' ≡ₚ ps ->
  run_assigns ps' s = Some s'.
Proof.
  intros Hnd Hdisj Hinit Hrun Hperm.
  destruct (run_assigns_spec ps s Hnd Hdisj Hinit) as (s1 & Hrun1 & Hdst & Hframe).
  assert (s1 = s') as -> by congruence.
  destruct (run_assigns_spec ps' s) as (s2 & Hrun2 & Hdst2 & Hframe2).
  - now rewrite Hperm.
  - intros d. rewrite Hperm. apply Hdisj.
  - intros x. rewrite Hperm. apply Hinit.
  - rewrite Hrun2. f_equal. apply map_eq. intros x.
    destruct (decide (x ∈ ps.*1)) as [Hx|Hx].
    + apply list_elem_of_fmap in Hx as ([d sr] & -> & Hin). cbn [fst].
      rewrite (Hdst _ _ Hin). apply Hdst2. now rewrite Hperm.
    + rewrite (Hframe _ Hx). apply Hframe2. now rewrite Hperm.
Qed.

End UpdateTargetFacts.

(** C5. When the target variables are pairwise distinct, share no storage
    with the online variables, and the online variables have values,
    [update_target] succeeds and leaves every target variable equal to the
    online variable at the same position of the declaration order, the
    online variables unchanged (a plain copy); running it a second time
    gives the same session again, and so does running the assignments of
    the group in any other order. *)
Theorem update_target_copies {V : Type} (target_vars online_vars : list string)
    (s : gmap string V) :
  NoDup target_vars ->
  (forall x, x ∈ target_vars -> x ∉ online_vars) ->
  (forall x, x ∈ online_vars -> is_Some (s !! x)) ->
  exists s',
    update_target target_vars online_vars s = Some s'
    /\ (forall i dst src,
           target_vars !! i = Some dst -> online_vars !! i = Some src ->
           s' !! dst = s !! src /\ s' !! src = s !! src /\ s' !! dst = s' !! src)
    /\ (forall x, x ∉ target_vars -> s' !! x = s !! x)
    /\ update_target target_vars online_vars s' = Some s'
    /\ (forall assigns,
           assigns ≡ₚ zip target_vars online_vars ->
           run_assigns assigns s = Some s').
Proof.
  intros Hnd Hdisj Hinit. unfold update_target.
  assert (Hfst : forall d, d ∈ (zip target_vars online_vars).*1 -> d ∈ target_vars).
  { intros d Hd. apply list_elem_of_fmap in Hd as ([a b] & -> & Hin).
    apply (elem_of_zip_l _ _ _ _ Hin). }
  assert (Hsnd : forall x, x ∈ (zip target_vars online_vars).*2 -> x ∈ online_vars).
  { intros x Hx. apply list_elem_of_fmap in Hx as ([a b] & -> & Hin).
    apply (elem_of_zip_r _ _ _ _ Hin). }
  assert (Hnd' : NoDup (zip target_vars online_vars).*1).
  { clear -Hnd. revert online_vars.
    induction target_vars as [|t ts IH]; intros [|o os]; cbn; try constructor.
    - apply NoDup_cons in Hnd as [Ht _]. intros Hin. apply Ht.
      apply list_elem_of_fmap in Hin as ([a b] & -> & Hin).
      apply (elem_of_zip_l _ _ _ _ Hin).
    - apply NoDup_cons in Hnd as [_ Hts]. now apply IH. }
  assert (Hdisj' : forall d, d ∈ (zip target_vars online_vars).*1 ->
                             d ∉ (zip target_vars online_vars).*2).
  { intros d Hd Hx. exact (Hdisj d (Hfst d Hd) (Hsnd d Hx)). }
  assert (Hinit' : forall x, x ∈ (zip target_vars online_vars).*2 -> is_Some (s !! x)).
  { intros x Hx. apply Hinit, Hsnd, Hx. }
  destruct (run_assigns_spec _ s Hnd' Hdisj' Hinit') as (s' & Hrun & Hdst & Hframe).
  exists s'. split; [exact Hrun|]. split; [|split; [|split]].
  - intros i dst src Hi Hj.
    assert (Hin : (dst, src) ∈ zip target_vars online_vars).
    { apply list_elem_of_lookup. exists i.
      apply lookup_zip_with_Some. exists dst, src. auto. }
    assert (Hs : s' !! src = s !! src).
    { apply Hframe. intros Hd. apply (Hdisj src (Hfst _ Hd)).
      apply list_elem_of_lookup. now exists i. }
    rewrite (Hdst _ _ Hin), Hs. auto.
  - intros x Hx. apply Hframe. intros Hd. exact (Hx (Hfst _ Hd)).
  - exact (run_assigns_twice _ s s' Hnd' Hdisj' Hinit' Hrun).
  - intros assigns. exact (run_assigns_any_order _ _ s s' Hnd' Hdisj' Hinit' Hrun).
Qed.

Lemma update_target_copies_witness :
  exists s' : gmap string Q,
    update_target ["target/w"] ["online/w"] (sess (demo_world [])) = Some s'
    /\ (forall i dst src,
           ["target/w"] !! i = Some dst -> ["online/w"] !! i = Some src ->
           s' !! dst = sess (demo_world []) !! src
           /\ s' !! src = sess (demo_world []) !! src
           /\ s' !! dst = s' !! src)
    /\ (forall x, x ∉ ["target/w"] -> s' !! x = sess (demo_world []) !! x)
    /\ update_target ["target/w"] ["online/w"] s' = Some s'
    /\ (forall assigns,
           assigns ≡ₚ zip ["target/w"] ["online/w"] ->
           run_assigns assigns (sess (demo_world [])) = Some s').
Proof.
  apply (update_target_copies ["target/w"] ["online/w"] (sess (demo_world []))).
  - apply NoDup_singleton.
  - intros x Hx Hy. apply list_elem_of_singleton in Hx, Hy. congruence.
  - intros x Hx. apply list_elem_of_singleton in Hx. subst x.
    exists 1. reflexivity.
Defined.

(** ** The training loop *)

Ltac split_log :=
  cbn; rewrite ?Forall_app; repeat split; auto; repeat constructor; cbn; auto.

Lemma optimize_steps_app {Obs : Type} (tr1 tr2 : list (event Obs)) :
  optimize_steps (tr1 ++ tr2) = optimize_steps tr1 ++ optimize_steps tr2.
Proof. apply omap_app. Qed.

(** Exposes the trace of a state built by the setters, without unfolding
    what is read off it. *)
Ltac show_log :=
  cbn [fst snd log emit set_sess set_replay set_player set_schedules set_disk
       set_dirs tick save_checkpoint].

(** Splits the gradient steps of an extended trace and drops the events that
    are not gradient steps. *)
Ltac other_events :=
  show_log; rewrite ?optimize_steps_app; cbn [optimize_steps omap list_omap];
  rewrite ?app_nil_r.

Lemma saves_app {Obs : Type} (tr1 tr2 : list (event Obs)) :
  saves (tr1 ++ tr2) = saves tr1 ++ saves tr2.
Proof. apply omap_app. Qed.

(** The same for the checkpoints written. *)
Ltac other_than_saves :=
  show_log; rewrite ?saves_app; cbn [saves omap list_omap]; rewrite ?app_nil_r.

Section TrainFacts.

Context {Obs Vecs V B P : Type}.
Context {RB : ReplayBuffer Obs B} {PL : Player Obs V P}.
Variable to_vecs : list Obs -> Vecs.
Variable transition_loss :
  gmap string V -> Vecs -> list Z -> list Q -> Vecs -> list bool -> list Q -> list Q.
Variable discount : Q.
Variables target_vars online_vars : list string.
Variable all_variables : list string.
Variable optimize_op : gmap string V -> @feed Vecs -> gmap string V.
Variable clock : nat -> Q.

Local Abbreviation state := (world Obs V B P * locals)%type.
Local Abbreviation on_episode := (handle_episode (B := B) (P := P) (V := V) all_variables).
Local Abbreviation on_train := (train_step to_vecs transition_loss discount optimize_op).
Local Abbreviation on_target := (target_step (B := B) (P := P) target_vars online_vars).
Local Abbreviation step :=
  (process_transition to_vecs transition_loss discount target_vars online_vars
     all_variables optimize_op).
Local Abbreviation steps :=
  (process_all to_vecs transition_loss discount target_vars online_vars
     all_variables optimize_op).
Local Abbreviation loop :=
  (train_loop to_vecs transition_loss discount target_vars online_vars
     all_variables optimize_op clock).
Local Abbreviation setup := (train_setup (B := B) (P := P) target_vars online_vars clock).
Local Abbreviation run :=
  (train to_vecs transition_loss discount target_vars online_vars
     all_variables optimize_op clock).

(** *** Invariants of the loop *)

Lemma steps_keep (I : state -> Prop) (J : error -> state -> Prop) (cfg : config) :
  (forall trans st, I st -> step_keeps I J (step cfg trans st)) ->
  forall ts st, I st -> step_keeps I J (steps cfg ts st).
Proof.
  intros Hstep ts. induction ts as [|t ts IH]; intros st Hst.
  - exact Hst.
  - cbn [process_all]. specialize (Hstep t st Hst).
    destruct (step cfg t st) as [st1|e st1]; cbn [bind step_keeps] in *.
    + now apply IH.
    + exact Hstep.
Qed.

Lemma loop_keeps (I : state -> Prop) (J : error -> state -> Prop) (cfg : config) :
  (forall st, I st -> I (snd (timed_out clock cfg st))) ->
  (forall st, I st -> I (snd (pull st))) ->
  (forall trans st, I st -> step_keeps I J (step cfg trans st)) ->
  forall fuel st, I st -> ends_with I J (loop fuel cfg st).
Proof.
  intros Htime Hpull Hstep fuel.
  induction fuel as [|fuel IH]; intros st Hst.
  - exact Hst.
  - cbn [train_loop].
    destruct (steps_taken (snd st) <? num_steps cfg)%Z; [|exact Hst].
    specialize (Htime st Hst).
    destruct (timed_out clock cfg st) as [late st1]. cbn [snd] in Htime.
    destruct late; [exact Htime|].
    specialize (Hpull st1 Htime).
    destruct (pull st1) as [ts st2]. cbn [snd] in Hpull.
    pose proof (steps_keep I J cfg Hstep ts st2 Hpull) as Hall.
    destruct (steps cfg ts st2) as [st3|e st3]; cbn [step_keeps] in Hall.
    + now apply IH.
    + exact Hall.
Qed.

(** *** No gradient step below the minimum fill *)

Lemma train_due_iff (cfg : config) (st : state) :
  train_due cfg st = true
  <-> (min_buffer_size cfg <= buf_size (replay (fst st))
       /\ next_train_step (snd st) <= steps_taken (snd st))%Z.
Proof.
  unfold train_due. rewrite andb_true_iff, !Z.leb_le. reflexivity.
Qed.

Lemma filled_timed_out (cfg : config) (st : state) :
  log (fst (snd (timed_out clock cfg st))) = log (fst st).
Proof. unfold timed_out. destruct (timeout cfg); reflexivity. Qed.

(** A property kept by the stages of the loop body (the episode's
    bookkeeping, the insertion followed by the gradient step, the target
    update) is kept by the body. *)
Lemma step_by_three (I : state -> Prop) (J : error -> state -> Prop)
    (cfg : config) (trans : transition Obs) :
  (forall st, I st -> step_keeps I J (on_episode cfg trans st)) ->
  (forall st, I st -> step_keeps I J (on_train cfg (add_to_replay trans st))) ->
  (forall st, I st -> step_keeps I J (on_target cfg st)) ->
  forall st, I st -> step_keeps I J (step cfg trans st).
Proof.
  intros Hep Htrain Htarget st Hst. unfold process_transition.
  specialize (Hep st Hst).
  destruct (on_episode cfg trans st) as [st1|e st1]; cbn [bind step_keeps] in *;
    [|exact Hep].
  specialize (Htrain st1 Hep).
  destruct (on_train cfg (add_to_replay trans st1)) as [st2|e st2];
    cbn [bind step_keeps] in *; [|exact Htrain].
  now apply Htarget.
Qed.

Lemma step_by_stages (I : state -> Prop) (J : error -> state -> Prop)
    (cfg : config) (trans : transition Obs) :
  (forall st, I st -> step_keeps I J (on_episode cfg trans st)) ->
  (forall st, I st -> I (add_to_replay trans st)) ->
  (forall st, I st -> step_keeps I J (on_train cfg st)) ->
  (forall st, I st -> step_keeps I J (on_target cfg st)) ->
  forall st, I st -> step_keeps I J (step cfg trans st).
Proof.
  intros Hep Hadd Htrain Htarget. apply step_by_three; auto.
Qed.

Lemma filled_episode (cfg : config) (trans : transition Obs) (st : state) :
  Forall (fired_when_filled cfg) (log (fst st)) ->
  step_keeps (fun st' => Forall (fired_when_filled cfg) (log (fst st')))
    (fun _ st' => Forall (fired_when_filled cfg) (log (fst st')))
    (on_episode cfg trans st).
Proof.
  intros Hst. destruct st as [w l]. unfold handle_episode.
  destruct (is_last trans); [|exact Hst].
  destruct (Py.setitem _ _ _); [|exact Hst].
  cbn [step_keeps fst]. destruct (save_due cfg _); split_log.
Qed.

Lemma filled_train (cfg : config) (st : state) :
  Forall (fired_when_filled cfg) (log (fst st)) ->
  step_keeps (fun st' => Forall (fired_when_filled cfg) (log (fst st')))
    (fun _ st' => Forall (fired_when_filled cfg) (log (fst st')))
    (on_train cfg st).
Proof.
  intros Hst. destruct st as [w l]. unfold train_step.
  destruct (train_due cfg (w, l)) eqn:Hdue; [|exact Hst].
  apply train_due_iff in Hdue as [Hsize _].
  destruct (sample (replay w) (batch_size cfg)) as [batch b1].
  destruct (dqn_losses _ _ _); split_log.
Qed.

Lemma filled_target (cfg : config) (st : state) :
  Forall (fired_when_filled cfg) (log (fst st)) ->
  step_keeps (fun st' => Forall (fired_when_filled cfg) (log (fst st')))
    (fun _ st' => Forall (fired_when_filled cfg) (log (fst st')))
    (on_target cfg st).
Proof.
  intros Hst. destruct st as [w l]. unfold target_step, run_update_target.
  destruct (_ <=? _)%Z; [|exact Hst].
  destruct (update_target _ _ _); split_log.
Qed.

Lemma filled_run (cfg : config) (fuel : nat) (st : state) :
  Forall (fired_when_filled cfg) (log (fst st)) ->
  Forall (fired_when_filled cfg) (log (fst (snd (loop fuel cfg st)))).
Proof.
  intros Hst.
  pose proof (loop_keeps
                (fun st' => Forall (fired_when_filled cfg) (log (fst st')))
                (fun _ st' => Forall (fired_when_filled cfg) (log (fst st')))
                cfg) as Hloop.
  unfold ends_with in Hloop.
  specialize (Hloop (fun st' H => eq_ind_r _ H (filled_timed_out cfg st'))).
  assert (Hpull : forall st0 : state,
             Forall (fired_when_filled cfg) (log (fst st0)) ->
             Forall (fired_when_filled cfg) (log (fst (snd (pull st0))))).
  { intros [w0 l0] H0. unfold pull. cbn [fst snd].
    destruct (play _ _). split_log. }
  specialize (Hloop Hpull).
  assert (Hstep : forall trans (st0 : state),
             Forall (fired_when_filled cfg) (log (fst st0)) ->
             step_keeps (fun st' => Forall (fired_when_filled cfg) (log (fst st')))
               (fun _ st' => Forall (fired_when_filled cfg) (log (fst st')))
               (step cfg trans st0)).
  { intros trans. apply step_by_stages.
    - apply filled_episode.
    - intros [w0 l0] H0. unfold add_to_replay. split_log.
    - apply filled_train.
    - apply filled_target. }
  specialize (Hloop Hstep fuel st Hst).
  destruct (fst (loop fuel cfg st)); exact Hloop.
Qed.

(** *** The cadence of gradient steps *)

Lemma cadence_fire (k s : Z) :
  (0 < k)%Z -> (0 <= s)%Z -> (k * (s / k + 1) <= s + 1)%Z ->
  ((s + 1) / k = s / k + 1)%Z /\ (s + 1 = k * ((s + 1) / k))%Z.
Proof.
  intros Hk Hs Hdue.
  pose proof (Z.div_mod s k ltac:(lia)) as Hdm.
  pose proof (Z.mod_pos_bound s k Hk) as Hr.
  assert (Heq : (s + 1 = (s / k + 1) * k)%Z) by nia.
  assert (Hq : ((s + 1) / k = s / k + 1)%Z).
  { rewrite Heq. apply Z.div_mul. lia. }
  split; [exact Hq|]. rewrite Hq. lia.
Qed.

Lemma cadence_wait (k s : Z) :
  (0 < k)%Z -> (0 <= s)%Z -> ~ (k * (s / k + 1) <= s + 1)%Z ->
  ((s + 1) / k = s / k)%Z.
Proof.
  intros Hk Hs Hwait.
  pose proof (Z.div_mod s k ltac:(lia)) as Hdm.
  pose proof (Z.mod_pos_bound s k Hk) as Hr.
  symmetry. apply (Z.div_unique_pos (s + 1) k (s / k) (s mod k + 1)); nia.
Qed.

Lemma multiples_snoc (k : Z) (n : nat) :
  multiples k (S n) = multiples k n ++ [(k * Z.of_nat (S n))%Z].
Proof. unfold multiples. rewrite seq_S, map_app. reflexivity. Qed.

Section Cadence.

Variable cfg : config.
Variable k : Z.
Hypothesis interval : train_interval cfg = k.
Hypothesis positive : (0 < k)%Z.
Hypothesis filled : forall b : B, (min_buffer_size cfg <= buf_size b)%Z.

Local Abbreviation excused :=
  (fun (e : error) (st' : state) => e <> InvalidArgument -> on_cadence k st').

Lemma cadence_episode (trans : transition Obs) (st : state) :
  on_cadence k st -> step_keeps (on_cadence k) excused (on_episode cfg trans st).
Proof.
  intros Hst. destruct st as [w l]. unfold handle_episode.
  destruct (is_last trans); [|exact Hst].
  destruct (Py.setitem _ _ _); [|intros _; exact Hst].
  destruct Hst as (H0 & Hnext & Hlog). cbn [fst snd] in *.
  unfold step_keeps, on_cadence. cbn [fst snd steps_taken next_train_step].
  split; [exact H0|]. split; [exact Hnext|].
  destruct (save_due cfg _); other_events; exact Hlog.
Qed.

Lemma cadence_train (trans : transition Obs) (st : state) :
  on_cadence k st ->
  step_keeps (on_cadence k) excused (on_train cfg (add_to_replay trans st)).
Proof.
  intros Hst. destruct st as [w l]. destruct Hst as (H0 & Hnext & Hlog).
  cbn [fst snd] in *. unfold train_step, add_to_replay.
  destruct (train_due cfg _) eqn:Hdue.
  - apply train_due_iff in Hdue as [_ Hdue]. cbn [fst snd steps_taken next_train_step] in Hdue.
    rewrite Hnext in Hdue.
    destruct (cadence_fire k (steps_taken l) positive H0 Hdue) as [Hq Hmul].
    destruct (sample _ _) as [batch b1].
    destruct (dqn_losses _ _ _); [|intros Hne; now contradiction Hne].
    unfold step_keeps, on_cadence. cbn [fst snd steps_taken next_train_step].
    split; [lia|]. split; [rewrite interval, Hq; lia|].
    other_events. rewrite Hlog.
    rewrite Hq, Z2Nat.inj_add by (try apply Z.div_pos; lia).
    change (Z.to_nat 1) with 1%nat. rewrite Nat.add_1_r, multiples_snoc.
    do 2 f_equal. rewrite Hmul at 1. rewrite Hq.
    rewrite Nat2Z.inj_succ, Z2Nat.id by (apply Z.div_pos; lia). lia.
  - assert (Hwait : ~ (k * (steps_taken l / k + 1) <= steps_taken l + 1)%Z).
    { intros Hle. apply not_true_iff_false in Hdue. apply Hdue.
      apply train_due_iff. cbn [fst snd steps_taken next_train_step replay].
      split; [apply filled|]. now rewrite Hnext. }
    pose proof (cadence_wait k (steps_taken l) positive H0 Hwait) as Hq.
    unfold step_keeps, on_cadence. cbn [fst snd steps_taken next_train_step].
    split; [lia|]. split; [rewrite Hq; exact Hnext|].
    other_events. rewrite Hq. exact Hlog.
Qed.

Lemma cadence_target (st : state) :
  on_cadence k st -> step_keeps (on_cadence k) excused (on_target cfg st).
Proof.
  intros Hst. destruct st as [w l]. unfold target_step, run_update_target.
  destruct (_ <=? _)%Z; [|exact Hst].
  destruct Hst as (H0 & Hnext & Hlog). cbn [fst snd] in *.
  destruct (update_target _ _ _); unfold step_keeps, on_cadence;
    cbn [fst snd steps_taken next_train_step]; [|intros _];
    (split; [exact H0|]; split; [exact Hnext|]); [|exact Hlog].
  other_events. exact Hlog.
Qed.

Lemma cadence_loop (fuel : nat) (st : state) :
  on_cadence k st -> ends_with (on_cadence k) excused (loop fuel cfg st).
Proof.
  apply loop_keeps.
  - intros [w l] H. unfold timed_out. destruct (timeout cfg); exact H.
  - intros [w l] (H0 & Hnext & Hlog). unfold pull. cbn [fst snd] in *.
    destruct (play _ _). unfold on_cadence. cbn [fst snd].
    split; [exact H0|]. split; [exact Hnext|].
    other_events. exact Hlog.
  - intros trans. apply step_by_three.
    + apply cadence_episode.
    + apply cadence_train.
    + apply cadence_target.
Qed.

Lemma cadence_run (fuel : nat) (w : world Obs V B P) :
  optimize_steps (log w) = [] ->
  ends_with (on_cadence k) excused (run fuel cfg w).
Proof.
  intros Hlog. unfold train, train_setup, run_update_target, restore.
  assert (Hdiv : (0 / k = 0)%Z) by (apply Z.div_0_l; lia).
  destruct (update_target _ _ _).
  2:{ intros _. unfold on_cadence. cbn. rewrite Hdiv, interval. repeat split; [lia|lia|exact Hlog]. }
  assert (Hstart : forall (w' : world Obs V B P) now,
             optimize_steps (log w') = [] ->
             on_cadence k (w', initial_locals cfg now)).
  { intros w' now Hw'. unfold on_cadence. cbn. rewrite Hdiv, interval.
    repeat split; [lia|lia|exact Hw']. }
  destruct (restore_path cfg) as [path|].
  - destruct (disk _ !! path).
    + apply cadence_loop, Hstart. other_events. exact Hlog.
    + intros _. apply Hstart. other_events. exact Hlog.
  - apply cadence_loop, Hstart. other_events. exact Hlog.
Qed.

End Cadence.

Lemma train_step_idle (cfg : config) (st : state) :
  train_due cfg st = false -> on_train cfg st = Ok st.
Proof. intros H. destruct st as [w l]. unfold train_step. now rewrite H. Qed.

Lemma train_step_fires (cfg : config) (st : state)
    (batch : list (transition Obs)) (b1 : B) (losses : list Q) :
  train_due cfg st = true ->
  sample (replay (fst st)) (batch_size cfg) = (batch, b1) ->
  dqn_losses transition_loss (sess (fst st)) (feed_dict to_vecs discount batch)
  = Some losses ->
  exists st',
    on_train cfg st = Ok st'
    /\ next_train_step (snd st') = (steps_taken (snd st) + train_interval cfg)%Z
    /\ steps_taken (snd st') = steps_taken (snd st)
    /\ log (fst st')
       = log (fst st)
         ++ [EvOptimize (steps_taken (snd st)) (buf_size (replay (fst st))) batch;
             EvUpdateWeights batch losses]
    /\ sess (fst st') = optimize_op (sess (fst st)) (feed_dict to_vecs discount batch)
    /\ replay (fst st') = update_weights b1 batch losses.
Proof.
  intros Hdue Hsample Hlosses. destruct st as [w l]. cbn [fst snd] in *.
  unfold train_step. rewrite Hdue, Hsample. cbn [sess set_replay]. rewrite Hlosses.
  eexists. split; [reflexivity|]. cbn. rewrite <- app_assoc. repeat split.
Qed.

Lemma filled_setup (cfg : config) (w : world Obs V B P) :
  Forall (fired_when_filled cfg) (log w) ->
  step_keeps (fun st' => Forall (fired_when_filled cfg) (log (fst st')))
    (fun _ st' => Forall (fired_when_filled cfg) (log (fst st')))
    (setup cfg w).
Proof.
  intros Hw. unfold train_setup, run_update_target, restore.
  destruct (update_target _ _ _); [|exact Hw].
  destruct (restore_path cfg) as [path|]; [destruct (disk _ !! path)|]; split_log.
Qed.

Lemma filled_whole_run (cfg : config) (fuel : nat) (w : world Obs V B P) :
  Forall (fired_when_filled cfg) (log w) ->
  Forall (fired_when_filled cfg) (log (fst (snd (run fuel cfg w)))).
Proof.
  intros Hw. unfold train. pose proof (filled_setup cfg w Hw) as Hs.
  destruct (setup cfg w) as [st|e st]; cbn [step_keeps] in Hs.
  - now apply filled_run.
  - exact Hs.
Qed.

(** C2. The gradient step of the loop body runs exactly when the buffer's
    size is at least [min_buffer_size] and [steps_taken] has reached
    [next_train_step]; when it runs, [next_train_step] becomes
    [steps_taken + train_interval], a batch is sampled, the optimizer runs on
    its encoding and the per-sample losses go back to the buffer; otherwise
    the state is left as it is.  In every run, each gradient step saw a
    buffer of at least [min_buffer_size].  When the buffer test always
    passes and the interval is a positive [k], the gradient steps of a run
    are those at [k], [2k], ... up to the steps taken (with [k = 4]: at 4, 8,
    12 and at no step between). *)
Theorem train_step_gate :
  (forall cfg (st : state),
      train_due cfg st = true
      <-> (min_buffer_size cfg <= buf_size (replay (fst st))
           /\ next_train_step (snd st) <= steps_taken (snd st))%Z)
  /\ (forall cfg (st : state), train_due cfg st = false -> on_train cfg st = Ok st)
  /\ (forall cfg (st : state) batch b1 losses,
         train_due cfg st = true ->
         sample (replay (fst st)) (batch_size cfg) = (batch, b1) ->
         dqn_losses transition_loss (sess (fst st)) (feed_dict to_vecs discount batch)
         = Some losses ->
         exists st',
           on_train cfg st = Ok st'
           /\ next_train_step (snd st') = (steps_taken (snd st) + train_interval cfg)%Z
           /\ steps_taken (snd st') = steps_taken (snd st)
           /\ log (fst st')
              = log (fst st)
                ++ [EvOptimize (steps_taken (snd st)) (buf_size (replay (fst st))) batch;
                    EvUpdateWeights batch losses]
           /\ sess (fst st')
              = optimize_op (sess (fst st)) (feed_dict to_vecs discount batch)
           /\ replay (fst st') = update_weights b1 batch losses)
  /\ (forall cfg fuel (w : world Obs V B P),
         Forall (fired_when_filled cfg) (log w) ->
         Forall (fired_when_filled cfg) (log (fst (snd (run fuel cfg w)))))
  /\ (forall cfg k fuel (w : world Obs V B P),
         train_interval cfg = k -> (0 < k)%Z ->
         (forall b : B, (min_buffer_size cfg <= buf_size b)%Z) ->
         optimize_steps (log w) = [] ->
         fst (run fuel cfg w) <> Raised InvalidArgument ->
         optimize_steps (log (fst (snd (run fuel cfg w))))
         = multiples k (Z.to_nat (steps_taken (snd (snd (run fuel cfg w))) / k))).
Proof.
  split; [exact train_due_iff|]. split; [exact train_step_idle|].
  split; [exact train_step_fires|]. split; [exact filled_whole_run|].
  intros cfg k fuel w Hk Hpos Hfill Hlog Hne.
  pose proof (cadence_run cfg k Hk Hpos Hfill fuel w Hlog) as Hend.
  unfold ends_with in Hend.
  destruct (fst (run fuel cfg w)) as [| |e|]; try (now destruct Hend as (_ & _ & ?)).
  destruct Hend as (_ & _ & ?); [congruence|assumption].
Qed.

(** *** Episode bookkeeping *)

Example setitem_last : Py.setitem [10; 20; 30]%Z (-1) 0%Z = Some [10; 20; 0]%Z.
Proof. reflexivity. Qed.

Example setitem_past_end : Py.setitem [10; 20; 30]%Z 3 0%Z = None.
Proof. reflexivity. Qed.

Lemma index_in_range (len : nat) (i : Z) :
  is_Some (Py.index len i) <-> (- Z.of_nat len <= i < Z.of_nat len)%Z.
Proof.
  unfold Py.index.
  destruct (0 <=? i)%Z eqn:H0; [destruct (i <? Z.of_nat len)%Z eqn:H1
                              | destruct (- Z.of_nat len <=? i)%Z eqn:H1];
    rewrite ?Z.leb_le, ?Z.leb_gt, ?Z.ltb_lt, ?Z.ltb_ge in *;
    split; intros H; try lia; try (now eexists); destruct H as [? [=]].
Qed.

Lemma index_position (len : nat) (i : Z) (k : nat) :
  Py.index len i = Some k ->
  (k < len)%nat
  /\ Z.of_nat k = (if (0 <=? i)%Z then i else i + Z.of_nat len)%Z.
Proof.
  unfold Py.index.
  destruct (0 <=? i)%Z eqn:H0; [destruct (i <? Z.of_nat len)%Z eqn:H1
                              | destruct (- Z.of_nat len <=? i)%Z eqn:H1];
    rewrite ?Z.leb_le, ?Z.leb_gt, ?Z.ltb_lt, ?Z.ltb_ge in *;
    intros [= <-]; lia.
Qed.

Lemma setitem_out_of_range {A : Type} (xs : list A) (i : Z) (v : A) :
  ~ (- Z.of_nat (length xs) <= i < Z.of_nat (length xs))%Z ->
  Py.setitem xs i v = None.
Proof.
  intros H. unfold Py.setitem.
  destruct (Py.index (length xs) i) eqn:E; [|reflexivity].
  exfalso. apply H, index_in_range. rewrite E. eauto.
Qed.

Lemma setitem_in_range {A : Type} (xs : list A) (i : Z) (v : A) :
  (- Z.of_nat (length xs) <= i < Z.of_nat (length xs))%Z ->
  exists k, Py.index (length xs) i = Some k
            /\ Py.setitem xs i v = Some (<[k := v]> xs)
            /\ <[k := v]> xs !! k = Some v
            /\ length (<[k := v]> xs) = length xs.
Proof.
  intros H. apply index_in_range in H as [k Hk]. exists k.
  unfold Py.setitem. rewrite Hk. split; [reflexivity|]. split; [reflexivity|].
  apply index_position in Hk as [Hlt _].
  split; [now apply list_lookup_insert_eq | apply length_insert].
Qed.

Lemma slots_episode (cfg : config) (trans : transition Obs) (st : state) :
  slots_match cfg st ->
  step_keeps (slots_match cfg) (fun _ => slots_match cfg) (on_episode cfg trans st).
Proof.
  intros Hst. destruct st as [w l]. unfold handle_episode.
  destruct (is_last trans); [|exact Hst].
  unfold Py.setitem. destruct (Py.index _ _) as [k|]; [|exact Hst].
  unfold step_keeps, slots_match in *. cbn [fst snd env_rewards] in *.
  now rewrite length_insert.
Qed.

Lemma slots_train (cfg : config) (st : state) :
  slots_match cfg st ->
  step_keeps (slots_match cfg) (fun _ => slots_match cfg) (on_train cfg st).
Proof.
  intros Hst. destruct st as [w l]. unfold train_step.
  destruct (train_due cfg _); [|exact Hst].
  destruct (sample _ _). destruct (dqn_losses _ _ _); exact Hst.
Qed.

Lemma slots_target (cfg : config) (st : state) :
  slots_match cfg st ->
  step_keeps (slots_match cfg) (fun _ => slots_match cfg) (on_target cfg st).
Proof.
  intros Hst. destruct st as [w l]. unfold target_step.
  destruct (_ <=? _)%Z; [|exact Hst].
  destruct (run_update_target _ _ _); exact Hst.
Qed.

Lemma slots_step (cfg : config) (trans : transition Obs) (st : state) :
  slots_match cfg st ->
  step_keeps (slots_match cfg) (fun _ => slots_match cfg) (step cfg trans st).
Proof.
  apply step_by_stages.
  - apply slots_episode.
  - intros [w l] H. exact H.
  - apply slots_train.
  - apply slots_target.
Qed.

Lemma slots_setup (cfg : config) (w : world Obs V B P) :
  step_keeps (slots_match cfg) (fun _ => slots_match cfg) (setup cfg w).
Proof.
  assert (Hinit : forall now, length (env_rewards (initial_locals cfg now))
                              = Z.to_nat (num_envs cfg)).
  { intros now. cbn. unfold Py.replicate. apply repeat_length. }
  unfold train_setup. destruct (run_update_target _ _ _); [|apply Hinit].
  destruct (restore_path cfg); [destruct (restore _ _)|]; apply Hinit.
Qed.

Lemma slots_run (cfg : config) (fuel : nat) (w : world Obs V B P) :
  slots_match cfg (snd (run fuel cfg w)).
Proof.
  unfold train. pose proof (slots_setup cfg w) as Hs.
  destruct (setup cfg w) as [st|e st]; cbn [step_keeps] in Hs; [|exact Hs].
  pose proof (loop_keeps (slots_match cfg) (fun _ => slots_match cfg) cfg) as Hloop.
  unfold ends_with in Hloop.
  assert (H : match fst (loop fuel cfg st) with
              | Raised _ => slots_match cfg (snd (loop fuel cfg st))
              | _ => slots_match cfg (snd (loop fuel cfg st))
              end).
  { apply Hloop; [| |apply slots_step|exact Hs].
    - intros [w0 l0] H0. unfold timed_out. destruct (timeout cfg); exact H0.
    - intros [w0 l0] H0. unfold pull. cbn [fst snd]. destruct (play _ _). exact H0. }
  destruct (fst (loop fuel cfg st)); exact H.
Qed.

Lemma episode_out_of_range (cfg : config) (trans : transition Obs)
    (w : world Obs V B P) (l : locals) :
  is_last trans = true ->
  length (env_rewards l) = Z.to_nat (num_envs cfg) ->
  ~ (- Z.max 0 (num_envs cfg) <= episode_id trans < Z.max 0 (num_envs cfg))%Z ->
  on_episode cfg trans (w, l) = Raise IndexError (w, l)
  /\ forall rest, steps cfg (trans :: rest) (w, l) = Raise IndexError (w, l).
Proof.
  intros Hlast Hslots Hout.
  assert (Hlen : Z.of_nat (length (env_rewards l)) = Z.max 0 (num_envs cfg)).
  { rewrite Hslots. lia. }
  rewrite <- Hlen in Hout.
  assert (He : on_episode cfg trans (w, l) = Raise IndexError (w, l)).
  { unfold handle_episode. rewrite Hlast.
    now rewrite (setitem_out_of_range _ _ (total_reward trans) Hout). }
  split; [exact He|]. intros rest. cbn [process_all]. unfold process_transition.
  now rewrite He.
Qed.

(** C10 (amended). On an episode's last transition the loop writes
    [total_reward] into [env_rewards] at index [episode_id], read the way
    Python reads a subscript.  The list has [max 0 num_envs] slots in every
    state of a run, so the write succeeds exactly when
    [-num_envs <= episode_id < num_envs] (a negative index counts from the
    end); for every other index, in particular whenever
    [episode_id >= num_envs], the loop body raises [IndexError] before
    anything else happens, and a turn of the loop that pulls such a
    transition first ends the run with that error. *)
Theorem episode_slot_bounds (cfg : config) (trans : transition Obs) (st : state) :
  is_last trans = true ->
  slots_match cfg st ->
  ((- Z.max 0 (num_envs cfg) <= episode_id trans < Z.max 0 (num_envs cfg))%Z ->
   exists st' k,
     on_episode cfg trans st = Ok st'
     /\ Z.of_nat k = (if (0 <=? episode_id trans)%Z then episode_id trans
                      else episode_id trans + Z.max 0 (num_envs cfg))%Z
     /\ env_rewards (snd st') = <[k := total_reward trans]> (env_rewards (snd st))
     /\ env_rewards (snd st') !! k = Some (total_reward trans))
  /\ (~ (- Z.max 0 (num_envs cfg) <= episode_id trans < Z.max 0 (num_envs cfg))%Z ->
      on_episode cfg trans st = Raise IndexError st
      /\ step cfg trans st = Raise IndexError st
      /\ (forall rest, steps cfg (trans :: rest) st = Raise IndexError st))
  /\ ((num_envs cfg <= episode_id trans)%Z ->
      step cfg trans st = Raise IndexError st
      /\ (forall fuel rest p',
             timeout cfg = None ->
             (steps_taken (snd st) < num_steps cfg)%Z ->
             play (player (fst st)) (sess (fst st)) = (trans :: rest, p') ->
             fst (loop (S fuel) cfg st) = Raised IndexError))
  /\ (forall trans' (st0 : state),
         slots_match cfg st0 ->
         step_keeps (slots_match cfg) (fun _ => slots_match cfg) (step cfg trans' st0))
  /\ (forall fuel (w : world Obs V B P), slots_match cfg (snd (run fuel cfg w))).
Proof.
  intros Hlast Hslots. destruct st as [w l]. unfold slots_match in Hslots.
  cbn [fst snd] in *.
  assert (Hlen : Z.of_nat (length (env_rewards l)) = Z.max 0 (num_envs cfg)).
  { rewrite Hslots. lia. }
  split; [|split; [|split; [|split]]].
  - intros Hin. rewrite <- Hlen in Hin.
    destruct (setitem_in_range (env_rewards l) (episode_id trans) (total_reward trans) Hin)
      as (k & Hk & Hset & Hread & _).
    apply index_position in Hk as [_ Hpos]. rewrite Hlen in Hpos.
    unfold handle_episode. rewrite Hlast, Hset.
    eexists. exists k. split; [reflexivity|]. cbn [snd env_rewards]. auto.
  - intros Hout.
    destruct (episode_out_of_range cfg trans w l Hlast Hslots Hout) as [He Hall].
    split; [exact He|]. split; [|exact Hall].
    unfold process_transition. now rewrite He.
  - intros Hge.
    assert (Hout : ~ (- Z.max 0 (num_envs cfg) <= episode_id trans
                      < Z.max 0 (num_envs cfg))%Z) by lia.
    split.
    + destruct (episode_out_of_range cfg trans w l Hlast Hslots Hout) as [He _].
      unfold process_transition. now rewrite He.
    + intros fuel rest p' Htime Hsteps Hplay. cbn [train_loop fst snd].
      apply Z.ltb_lt in Hsteps. rewrite Hsteps. unfold timed_out. rewrite Htime.
      unfold pull. cbn [fst snd]. rewrite Hplay.
      destruct (episode_out_of_range cfg trans
                  (emit (EvPlay (length (trans :: rest))) (set_player p' w)) l
                  Hlast Hslots Hout) as [_ Hall].
      now rewrite Hall.
  - intros trans' st0. apply slots_step.
  - intros fuel w0. apply slots_run.
Qed.

(** *** Checkpoints *)

Lemma save_due_iff (cfg : config) (l : locals) :
  save_due cfg l = true
  <-> exists k, save_interval cfg = Some k /\ k <> 0%Z /\ (num_episodes l mod k = 0)%Z.
Proof.
  unfold save_due. destruct (save_interval cfg) as [k|].
  - rewrite andb_true_iff, negb_true_iff, Z.eqb_neq, Z.eqb_eq. split.
    + intros [Hk Hmod]. now exists k.
    + intros (k' & [= <-] & Hk & Hmod). now split.
  - split; [discriminate|]. now intros (k & [=] & _).
Qed.

Lemma var_list_elem (name : string) :
  name ∈ var_list all_variables
  <-> name ∈ all_variables /\ contains "ScheduleCounter" name = false.
Proof.
  unfold var_list. rewrite !list_elem_of_In, filter_In, negb_true_iff. reflexivity.
Qed.

Lemma snapshot_lookup (s : gmap string V) (name : string) (v : V) :
  snapshot (var_list all_variables) s !! name = Some v
  <-> s !! name = Some v
      /\ name ∈ all_variables /\ contains "ScheduleCounter" name = false.
Proof.
  unfold snapshot. rewrite map_lookup_filter_Some. cbn [fst].
  now rewrite var_list_elem.
Qed.

(** The checkpoint side of a world: what was saved, the files, the
    directories. *)
Local Abbreviation saved w := (saves (log w), disk w, dirs w).

Lemma episode_checkpoint (cfg : config) (trans : transition Obs) (st st' : state) :
  on_episode cfg trans st = Ok st' ->
  (if is_last trans && save_due cfg (snd st)
   then saved (fst st')
        = (saves (log (fst st)) ++ [(checkdir, num_episodes (snd st))],
           <[save_path checkdir (num_episodes (snd st))
             := snapshot (var_list all_variables) (sess (fst st))]> (disk (fst st)),
           {[ checkdir ]} ∪ dirs (fst st))
   else saved (fst st') = saved (fst st))
  /\ num_episodes (snd st')
     = (if is_last trans then num_episodes (snd st) + 1 else num_episodes (snd st))%Z
  /\ sess (fst st') = sess (fst st).
Proof.
  destruct st as [w l]. unfold handle_episode. cbn [fst snd].
  destruct (is_last trans); [|intros [= <-]; cbn; auto].
  destruct (Py.setitem _ _ _) as [er|]; [|discriminate].
  change (save_due cfg {| steps_taken := steps_taken l; num_episodes := num_episodes l;
                         next_target_update := next_target_update l;
                         next_train_step := next_train_step l;
                         start_time := start_time l; env_rewards := er |})
    with (save_due cfg l).
  cbn [andb]. destruct (save_due cfg l); intros [= <-]; cbn [fst snd num_episodes];
    (split; [|split; reflexivity]); other_than_saves; reflexivity.
Qed.

Lemma train_checkpoint (cfg : config) (st st' : state) :
  on_train cfg st = Ok st' ->
  saved (fst st') = saved (fst st) /\ num_episodes (snd st') = num_episodes (snd st).
Proof.
  destruct st as [w l]. unfold train_step.
  destruct (train_due cfg _); [|intros [= <-]; auto].
  destruct (sample _ _). destruct (dqn_losses _ _ _); [|discriminate].
  intros [= <-]. split; [|reflexivity]. other_than_saves. reflexivity.
Qed.

Lemma target_checkpoint (cfg : config) (st st' : state) :
  on_target cfg st = Ok st' ->
  saved (fst st') = saved (fst st) /\ num_episodes (snd st') = num_episodes (snd st).
Proof.
  destruct st as [w l]. unfold target_step, run_update_target.
  destruct (_ <=? _)%Z; [|intros [= <-]; auto].
  destruct (update_target _ _ _); [|discriminate].
  intros [= <-]. split; [|reflexivity]. other_than_saves. reflexivity.
Qed.

Lemma add_checkpoint (trans : transition Obs) (st : state) :
  saved (fst (add_to_replay trans st)) = saved (fst st)
  /\ num_episodes (snd (add_to_replay trans st)) = num_episodes (snd st).
Proof.
  destruct st as [w l]. unfold add_to_replay. split; [|reflexivity].
  other_than_saves. reflexivity.
Qed.

(** C9 (amended). A checkpoint holds the session's values of the graph's
    global variables whose name does not contain [ScheduleCounter].  It is
    written under the fixed relative path [./checkpoints_rainbow/model],
    which no argument of [train] changes; the directory of that name is
    created first, and the snapshot is tagged with the episode count.  In one
    turn of the loop body a snapshot is written exactly when the transition
    ends an episode and [save_interval] is set, nonzero and divides
    [num_episodes], the count being the one before it is incremented. *)
Theorem checkpoint_writes :
  checkdir = "./checkpoints_rainbow/model"
  /\ (forall cfg l,
         save_due cfg l = true
         <-> exists k, save_interval cfg = Some k /\ k <> 0%Z
                       /\ (num_episodes l mod k = 0)%Z)
  /\ (forall (s : gmap string V) name v,
         snapshot (var_list all_variables) s !! name = Some v
         <-> s !! name = Some v
             /\ name ∈ all_variables /\ contains "ScheduleCounter" name = false)
  /\ (forall cfg trans (st st' : state),
         step cfg trans st = Ok st' ->
         (if is_last trans && save_due cfg (snd st)
          then saved (fst st')
               = (saves (log (fst st)) ++ [(checkdir, num_episodes (snd st))],
                  <[save_path checkdir (num_episodes (snd st))
                    := snapshot (var_list all_variables) (sess (fst st))]>
                    (disk (fst st)),
                  {[ checkdir ]} ∪ dirs (fst st))
          else saved (fst st') = saved (fst st))
         /\ num_episodes (snd st')
            = (if is_last trans then num_episodes (snd st) + 1
               else num_episodes (snd st))%Z).
Proof.
  split; [reflexivity|]. split; [exact save_due_iff|]. split; [exact snapshot_lookup|].
  intros cfg trans st st'. unfold process_transition.
  destruct (on_episode cfg trans st) as [st1|] eqn:Hep; [|discriminate].
  cbn [bind].
  destruct (on_train cfg (add_to_replay trans st1)) as [st2|] eqn:Htr; [|discriminate].
  cbn [bind]. intros Htg.
  apply episode_checkpoint in Hep as (Hsaved & Hnum & _).
  apply train_checkpoint in Htr as [Hs2 Hn2].
  apply target_checkpoint in Htg as [Hs3 Hn3].
  destruct (add_checkpoint trans st1) as [Hs1 Hn1].
  rewrite Hs3, Hs2, Hs1, Hn3, Hn2, Hn1. auto.
Qed.

(** *** The timeout *)

Lemma Qltb_lt (a b : Q) : Qltb a b = true <-> a < b.
Proof.
  unfold Qltb. rewrite negb_true_iff. split.
  - intros H. apply Qnot_le_lt. intros Hle. apply Qle_bool_iff in Hle. congruence.
  - intros H. destruct (Qle_bool b a) eqn:E; [|reflexivity].
    apply Qle_bool_iff in E. exfalso. exact (Qlt_not_le _ _ H E).
Qed.

Lemma loop_times_out (cfg : config) (fuel : nat) (st : state) (t : Q) :
  timeout cfg = Some t ->
  (steps_taken (snd st) < num_steps cfg)%Z ->
  t < clock (time_calls (fst st)) - start_time (snd st) ->
  loop (S fuel) cfg st = (TimedOut, (tick (fst st), snd st)).
Proof.
  intros Ht Hsteps Hlate. cbn [train_loop].
  apply Z.ltb_lt in Hsteps. rewrite Hsteps. unfold timed_out. rewrite Ht.
  apply Qltb_lt in Hlate. now rewrite Hlate.
Qed.

Lemma loop_goes_on (cfg : config) (fuel : nat) (st : state) (t : Q) :
  timeout cfg = Some t ->
  (steps_taken (snd st) < num_steps cfg)%Z ->
  clock (time_calls (fst st)) - start_time (snd st) <= t ->
  loop (S fuel) cfg st
  = match steps cfg (fst (pull (tick (fst st), snd st)))
            (snd (pull (tick (fst st), snd st))) with
    | Ok st3 => loop fuel cfg st3
    | Raise e st3 => (Raised e, st3)
    end.
Proof.
  intros Ht Hsteps Hearly. cbn [train_loop].
  apply Z.ltb_lt in Hsteps. rewrite Hsteps. unfold timed_out. rewrite Ht.
  destruct (Qltb t _) eqn:E.
  - apply Qltb_lt in E. exfalso. exact (Qlt_not_le _ _ E Hearly).
  - now destruct (pull _).
Qed.

(** The loop body and the pull never read the clock. *)
Lemma step_reads_no_clock (cfg : config) (n : nat) (trans : transition Obs) (st : state) :
  time_calls (fst st) = n ->
  step_keeps (fun st' => time_calls (fst st') = n)
    (fun _ st' => time_calls (fst st') = n) (step cfg trans st).
Proof.
  revert st. apply step_by_stages.
  - intros [w l] H. unfold handle_episode.
    destruct (is_last trans); [|exact H].
    destruct (Py.setitem _ _ _); [|exact H]. cbn [step_keeps fst].
    destruct (save_due cfg _); exact H.
  - intros [w l] H. exact H.
  - intros [w l] H. unfold train_step.
    destruct (train_due cfg _); [|exact H].
    destruct (sample _ _). destruct (dqn_losses _ _ _); exact H.
  - intros [w l] H. unfold target_step, run_update_target.
    destruct (_ <=? _)%Z; [|exact H].
    destruct (update_target _ _ _); exact H.
Qed.

Lemma setup_shape (cfg : config) (w : world Obs V B P) (st0 : state) :
  setup cfg w = Ok st0 ->
  snd st0 = initial_locals cfg (clock (time_calls w))
  /\ time_calls (fst st0) = S (time_calls w)
  /\ replay (fst st0) = replay w
  /\ player (fst st0) = player w
  /\ added_samples (log (fst st0)) = added_samples (log w)
  /\ optimize_steps (log (fst st0)) = optimize_steps (log w).
Proof.
  unfold train_setup, run_update_target, restore.
  destruct (update_target _ _ _); [|discriminate].
  cbn [time_calls emit set_sess].
  destruct (restore_path cfg) as [path|]; [destruct (disk _ !! path); [|discriminate]|];
    intros [= <-]; cbn [fst snd]; repeat split;
    try (other_events; reflexivity);
    show_log; unfold added_samples; rewrite ?omap_app; cbn [omap list_omap];
    rewrite ?app_nil_r; reflexivity.
Qed.

(** C8 (amended). With [timeout = 0] and a positive [num_steps], a run whose
    clock has advanced between the reading of [start_time] and the first
    test of the loop returns at that test: the player is not called, nothing
    enters the replay buffer and no gradient step runs.  With a [num_steps]
    that is not positive the loop is not entered at all.  In general the test
    is [elapsed > timeout], made once at the start of each turn of the
    [while] loop and nowhere else; when it holds the loop returns normally,
    with the state as it was but for the clock reading, and when it does not
    the turn pulls and processes its transitions. *)
Theorem timeout_return :
  (forall cfg fuel (w : world Obs V B P) (st0 : state) t,
      timeout cfg = Some t -> t == 0 -> (0 < num_steps cfg)%Z ->
      setup cfg w = Ok st0 ->
      clock (time_calls w) < clock (S (time_calls w)) ->
      run (S fuel) cfg w = (TimedOut, (tick (fst st0), snd st0))
      /\ log (tick (fst st0)) = log (fst st0)
      /\ added_samples (log (fst st0)) = added_samples (log w)
      /\ optimize_steps (log (fst st0)) = optimize_steps (log w)
      /\ replay (tick (fst st0)) = replay w
      /\ player (tick (fst st0)) = player w)
  /\ (forall cfg fuel (w : world Obs V B P) (st0 : state),
         (num_steps cfg <= 0)%Z -> setup cfg w = Ok st0 ->
         run (S fuel) cfg w = (LoopExit, st0))
  /\ (forall cfg fuel (st : state) t,
         timeout cfg = Some t ->
         (steps_taken (snd st) < num_steps cfg)%Z ->
         t < clock (time_calls (fst st)) - start_time (snd st) ->
         loop (S fuel) cfg st = (TimedOut, (tick (fst st), snd st)))
  /\ (forall cfg fuel (st : state) t,
         timeout cfg = Some t ->
         (steps_taken (snd st) < num_steps cfg)%Z ->
         clock (time_calls (fst st)) - start_time (snd st) <= t ->
         loop (S fuel) cfg st
         = match steps cfg (fst (pull (tick (fst st), snd st)))
                 (snd (pull (tick (fst st), snd st))) with
           | Ok st3 => loop fuel cfg st3
           | Raise e st3 => (Raised e, st3)
           end)
  /\ (forall cfg (st : state),
         time_calls (fst (snd (timed_out clock cfg st)))
         = match timeout cfg with
           | Some _ => S (time_calls (fst st))
           | None => time_calls (fst st)
           end)
  /\ (forall cfg ts (st : state),
         time_calls (fst (snd (pull st))) = time_calls (fst st)
         /\ step_keeps (fun st' => time_calls (fst st') = time_calls (fst st))
              (fun _ st' => time_calls (fst st') = time_calls (fst st))
              (steps cfg ts st)).
Proof.
  split; [|split; [|split; [exact loop_times_out|split; [exact loop_goes_on|split]]]].
  2:{ intros cfg fuel w st0 Hsteps Hsetup.
      destruct (setup_shape cfg w st0 Hsetup) as (Hl & _).
      unfold train. rewrite Hsetup. cbn [train_loop]. rewrite Hl.
      cbn [steps_taken initial_locals]. apply Z.ltb_ge in Hsteps. now rewrite Hsteps. }
  - intros cfg fuel w st0 t Ht Hzero Hsteps Hsetup Hclock.
    destruct (setup_shape cfg w st0 Hsetup) as (Hl & Htime & Hrep & Hpl & Hadd & Hopt).
    split; [|repeat split; assumption].
    unfold train. rewrite Hsetup. apply (loop_times_out cfg fuel st0 t Ht).
    + rewrite Hl. exact Hsteps.
    + rewrite Htime, Hl. cbn [start_time initial_locals]. rewrite Hzero.
      apply (Qplus_lt_l _ _ (clock (time_calls w))). ring_simplify. exact Hclock.
  - intros cfg [w l]. unfold timed_out. destruct (timeout cfg); reflexivity.
  - intros cfg ts [w l]. split.
    + unfold pull. cbn [fst snd]. destruct (play _ _). reflexivity.
    + apply steps_keep; [|reflexivity].
      intros trans st1. apply step_reads_no_clock.
Qed.

(** *** Termination *)

Lemma step_counts (cfg : config) (trans : transition Obs) (st st' : state) :
  step cfg trans st = Ok st' ->
  player (fst st') = player (fst st)
  /\ steps_taken (snd st') = (steps_taken (snd st) + 1)%Z.
Proof.
  destruct st as [w l]. unfold process_transition.
  destruct (on_episode cfg trans (w, l)) as [[w1 l1]|] eqn:Hep; [|discriminate].
  assert (H1 : player w1 = player w /\ steps_taken l1 = steps_taken l).
  { revert Hep. unfold handle_episode.
    destruct (is_last trans); [|intros [= <- <-]; auto].
    destruct (Py.setitem _ _ _); [|discriminate].
    destruct (save_due cfg _); intros [= <- <-]; auto. }
  cbn [bind].
  destruct (on_train cfg (add_to_replay trans (w1, l1))) as [[w2 l2]|] eqn:Htr;
    [|discriminate].
  assert (H2 : player w2 = player w1 /\ steps_taken l2 = (steps_taken l1 + 1)%Z).
  { revert Htr. unfold train_step, add_to_replay.
    destruct (train_due cfg _); [|intros [= <- <-]; auto].
    destruct (sample _ _). destruct (dqn_losses _ _ _); [|discriminate].
    intros [= <- <-]. auto. }
  cbn [bind]. unfold target_step, run_update_target.
  destruct (_ <=? _)%Z; [|intros [= <-]; cbn [fst snd]; intuition congruence].
  destruct (update_target _ _ _); [|discriminate].
  intros [= <-]. cbn [fst snd steps_taken player emit set_sess]. intuition congruence.
Qed.

Lemma steps_count (cfg : config) (ts : list (transition Obs)) (st st' : state) :
  steps cfg ts st = Ok st' ->
  player (fst st') = player (fst st)
  /\ steps_taken (snd st') = (steps_taken (snd st) + Z.of_nat (length ts))%Z.
Proof.
  revert st. induction ts as [|t ts IH]; intros st.
  - intros [= <-]. split; [reflexivity|]. cbn. lia.
  - cbn [process_all]. destruct (step cfg t st) as [st1|] eqn:H1; [|discriminate].
    cbn [bind]. intros H2. apply step_counts in H1 as [Hp1 Hs1].
    apply IH in H2 as [Hp2 Hs2]. split; [congruence|].
    rewrite Hs2, Hs1. cbn [length]. lia.
Qed.

(** X4. With a player that hands over at least one transition per call, the
    loop needs at most one turn per remaining step: a run with more fuel
    than [num_steps] never stops for lack of fuel. *)
Theorem train_terminates (good : P -> Prop) (cfg : config) (fuel : nat)
    (w : world Obs V B P) :
  (forall p s, good p -> fst (play p s) <> [] /\ good (snd (play p s))) ->
  good (player w) ->
  (Z.to_nat (num_steps cfg) < fuel)%nat ->
  exists out st, run fuel cfg w = (out, st) /\ out <> OutOfFuel.
Proof.
  intros Hplay Hgood Hfuel.
  assert (Hloop : forall n (st : state),
             good (player (fst st)) ->
             (Z.to_nat (num_steps cfg - steps_taken (snd st)) < n)%nat ->
             fst (loop n cfg st) <> OutOfFuel).
  { induction n as [|n IH]; intros [w0 l0] Hg Hn; [lia|].
    cbn [train_loop fst snd] in *.
    destruct (steps_taken l0 <? num_steps cfg)%Z eqn:Hlt; [|discriminate].
    apply Z.ltb_lt in Hlt.
    assert (Hto : exists late w1, timed_out clock cfg (w0, l0) = (late, (w1, l0))
                                  /\ player w1 = player w0 /\ sess w1 = sess w0).
    { unfold timed_out. destruct (timeout cfg); eauto. }
    destruct Hto as (late & w1 & -> & Hp1 & Hs1).
    destruct late; [discriminate|].
    unfold pull. cbn [fst snd]. rewrite Hp1.
    destruct (Hplay (player w0) (sess w1) Hg) as [Hne Hg'].
    destruct (play (player w0) (sess w1)) as [ts p'] eqn:Epl. cbn [fst snd] in *.
    destruct (steps cfg ts _) as [st3|e st3] eqn:Est; [|discriminate].
    apply steps_count in Est as [Hp3 Hs3]. cbn [fst snd player emit set_player] in *.
    apply IH; [now rewrite Hp3|].
    rewrite Hs3. destruct ts; [congruence|]. cbn [length]. lia. }
  unfold train.
  destruct (setup cfg w) as [[w1 l1]|e st] eqn:Hsetup.
  - destruct (loop fuel cfg (w1, l1)) as [out st] eqn:Hrun.
    exists out, st. split; [reflexivity|].
    replace out with (fst (loop fuel cfg (w1, l1))) by now rewrite Hrun.
    destruct (setup_shape cfg w (w1, l1) Hsetup) as (Hl & _ & _ & Hp & _).
    cbn [fst snd] in *. apply Hloop; cbn [fst snd].
    + now rewrite Hp.
    + rewrite Hl. cbn [steps_taken initial_locals]. rewrite Z.sub_0_r. exact Hfuel.
  - exists (Raised e), st. split; [reflexivity|discriminate].
Qed.

(** *** Restoring *)

(** C7 (amended). When a restore path is supplied, the unconditional
    pre-loop target update runs first and the checkpoint is loaded after it;
    nothing follows the restore before the loop starts.  After the set-up a
    variable holds the checkpoint's value where the checkpoint has one, and
    otherwise what the target update left, so the target variables equal the
    restored online variables only as far as the checkpoint says so.  In the
    loop the target update runs again only once [steps_taken] has reached
    [target_interval]. *)
Theorem restore_follows_sync (cfg : config) (w : world Obs V B P) (path : string)
    (s1 snap : gmap string V) :
  restore_path cfg = Some path ->
  update_target target_vars online_vars (sess w) = Some s1 ->
  disk w !! path = Some snap ->
  exists w',
    setup cfg w = Ok (w', initial_locals cfg (clock (time_calls w)))
    /\ log w' = log w ++ [EvUpdateTarget; EvRestore path]
    /\ sess w' = snap ∪ s1
    /\ (forall x, sess w' !! x = match snap !! x with
                                 | Some v => Some v
                                 | None => s1 !! x
                                 end)
    /\ next_target_update (initial_locals cfg (clock (time_calls w)))
       = target_interval cfg
    /\ (forall st : state,
           (steps_taken (snd st) < next_target_update (snd st))%Z ->
           on_target cfg st = Ok st).
Proof.
  intros Hpath Hsync Hdisk. unfold train_setup, run_update_target, restore.
  rewrite Hsync, Hpath. cbn [disk tick emit set_sess]. rewrite Hdisk.
  eexists. split; [reflexivity|]. cbn [log sess emit set_sess tick].
  rewrite <- app_assoc. split; [reflexivity|]. split; [reflexivity|].
  split; [|split; [reflexivity|]].
  - intros x. destruct (snap !! x) as [v|] eqn:E.
    + rewrite lookup_union_l' by (rewrite E; eauto). exact E.
    + now apply lookup_union_r.
  - intros [w0 l0] Hlt. unfold target_step. cbn [fst snd] in *.
    apply Z.leb_gt in Hlt. now rewrite Hlt.
Qed.

(** *** What one turn of the loop body changes *)

Lemma added_samples_app (tr1 tr2 : list (event Obs)) :
  added_samples (tr1 ++ tr2) = added_samples tr1 ++ added_samples tr2.
Proof. apply omap_app. Qed.

Lemma callbacks_app (tr1 tr2 : list (event Obs)) :
  callbacks (tr1 ++ tr2) = callbacks tr1 ++ callbacks tr2.
Proof. apply omap_app. Qed.

Lemma pulls_app (tr1 tr2 : list (event Obs)) :
  pulls (tr1 ++ tr2) = pulls tr1 ++ pulls tr2.
Proof. apply omap_app. Qed.

Lemma count_updates_app (tr1 tr2 : list (event Obs)) :
  count_updates (tr1 ++ tr2) = (count_updates tr1 + count_updates tr2)%nat.
Proof. unfold count_updates. now rewrite List.filter_app, length_app. Qed.

Ltac read_trace :=
  show_log;
  cbn [steps_taken num_episodes next_target_update next_train_step env_rewards
       schedules player time_calls];
  rewrite ?added_samples_app, ?callbacks_app, ?pulls_app, ?count_updates_app,
    ?optimize_steps_app;
  cbn [added_samples callbacks pulls count_updates optimize_steps omap list_omap
       List.filter length];
  rewrite ?app_nil_r, ?Nat.add_0_r, ?Z.add_0_r.

(** What the statements below read of a state: the samples added, the
    callbacks, the number of target updates, the pulls, the gradient steps,
    the schedules, the player, the clock readings and the counters. *)
Local Abbreviation view st :=
  (added_samples (log (fst st)), callbacks (log (fst st)),
   count_updates (log (fst st)), pulls (log (fst st)),
   optimize_steps (log (fst st)), schedules (fst st), player (fst st),
   time_calls (fst st),
   (steps_taken (snd st), num_episodes (snd st), next_target_update (snd st),
    next_train_step (snd st))).

Lemma episode_view (cfg : config) (trans : transition Obs) (st st' : state) :
  on_episode cfg trans st = Ok st' ->
  view st'
  = (added_samples (log (fst st)),
     callbacks (log (fst st)) ++ (if is_last trans then [episode_report trans] else []),
     count_updates (log (fst st)), pulls (log (fst st)),
     optimize_steps (log (fst st)), schedules (fst st), player (fst st),
     time_calls (fst st),
     (steps_taken (snd st),
      (num_episodes (snd st) + (if is_last trans then 1 else 0))%Z,
      next_target_update (snd st), next_train_step (snd st))).
Proof.
  destruct st as [w l]. unfold handle_episode.
  destruct (is_last trans); [|intros [= <-]; read_trace; reflexivity].
  destruct (Py.setitem _ _ _); [|discriminate].
  destruct (save_due cfg _); intros [= <-]; read_trace; reflexivity.
Qed.

Lemma add_view (trans : transition Obs) (st : state) :
  view (add_to_replay trans st)
  = (added_samples (log (fst st)) ++ [trans], callbacks (log (fst st)),
     count_updates (log (fst st)), pulls (log (fst st)),
     optimize_steps (log (fst st)), map (fun c => c + 1)%Z (schedules (fst st)),
     player (fst st), time_calls (fst st),
     ((steps_taken (snd st) + 1)%Z, num_episodes (snd st),
      next_target_update (snd st), next_train_step (snd st))).
Proof. destruct st as [w l]. unfold add_to_replay. read_trace. reflexivity. Qed.

Lemma train_view (cfg : config) (st st' : state) :
  on_train cfg st = Ok st' ->
  view st'
  = (added_samples (log (fst st)), callbacks (log (fst st)),
     count_updates (log (fst st)), pulls (log (fst st)),
     optimize_steps (log (fst st))
       ++ (if train_due cfg st then [steps_taken (snd st)] else []),
     schedules (fst st), player (fst st), time_calls (fst st),
     (steps_taken (snd st), num_episodes (snd st), next_target_update (snd st),
      if train_due cfg st then (steps_taken (snd st) + train_interval cfg)%Z
      else next_train_step (snd st))).
Proof.
  destruct st as [w l]. unfold train_step.
  destruct (train_due cfg (w, l)); [|intros [= <-]; read_trace; reflexivity].
  destruct (sample _ _). destruct (dqn_losses _ _ _); [|discriminate].
  intros [= <-]. read_trace. reflexivity.
Qed.

Lemma target_view (cfg : config) (st st' : state) :
  on_target cfg st = Ok st' ->
  view st'
  = (added_samples (log (fst st)), callbacks (log (fst st)),
     (count_updates (log (fst st))
      + (if (next_target_update (snd st) <=? steps_taken (snd st))%Z then 1 else 0))%nat,
     pulls (log (fst st)), optimize_steps (log (fst st)), schedules (fst st),
     player (fst st), time_calls (fst st),
     (steps_taken (snd st), num_episodes (snd st),
      (if (next_target_update (snd st) <=? steps_taken (snd st))%Z
       then (steps_taken (snd st) + target_interval cfg)%Z
       else next_target_update (snd st)),
      next_train_step (snd st))).
Proof.
  destruct st as [w l]. unfold target_step, run_update_target. cbn [fst snd].
  destruct (_ <=? _)%Z; [|intros [= <-]; read_trace; reflexivity].
  destruct (update_target _ _ _); [|discriminate].
  intros [= <-]. read_trace. reflexivity.
Qed.

(** One turn of the loop body that does not raise: the sample is added, the
    callback runs for an episode's last transition, the counters advance,
    and the gradient step and the target update run if they are due. *)
Lemma step_view (cfg : config) (trans : transition Obs) (st st' : state) :
  step cfg trans st = Ok st' ->
  exists fired : bool,
    (fired = true -> (next_train_step (snd st) <= steps_taken (snd st) + 1)%Z)
    /\ view st'
       = (added_samples (log (fst st)) ++ [trans],
          callbacks (log (fst st))
            ++ (if is_last trans then [episode_report trans] else []),
          (count_updates (log (fst st))
           + (if (next_target_update (snd st) <=? steps_taken (snd st) + 1)%Z
              then 1 else 0))%nat,
          pulls (log (fst st)),
          optimize_steps (log (fst st))
            ++ (if fired then [(steps_taken (snd st) + 1)%Z] else []),
          map (fun c => c + 1)%Z (schedules (fst st)), player (fst st),
          time_calls (fst st),
          ((steps_taken (snd st) + 1)%Z,
           (num_episodes (snd st) + (if is_last trans then 1 else 0))%Z,
           (if (next_target_update (snd st) <=? steps_taken (snd st) + 1)%Z
            then (steps_taken (snd st) + 1 + target_interval cfg)%Z
            else next_target_update (snd st)),
           if fired then (steps_taken (snd st) + 1 + train_interval cfg)%Z
           else next_train_step (snd st))).
Proof.
  unfold process_transition.
  destruct (on_episode cfg trans st) as [st1|] eqn:Hep; [|discriminate]. cbn [bind].
  destruct (on_train cfg (add_to_replay trans st1)) as [st2|] eqn:Htr; [|discriminate].
  cbn [bind]. intros Htg.
  apply episode_view in Hep as [= E1 E2 E3 E4 E5 E6 E7 E8 E9 E10 E11 E12].
  pose proof (add_view trans st1) as [= A1 A2 A3 A4 A5 A6 A7 A8 A9 A10 A11 A12].
  pose proof (train_due_iff cfg (add_to_replay trans st1)) as Hdue.
  apply train_view in Htr as [= T1 T2 T3 T4 T5 T6 T7 T8 T9 T10 T11 T12].
  apply target_view in Htg as [= G1 G2 G3 G4 G5 G6 G7 G8 G9 G10 G11 G12].
  exists (train_due cfg (add_to_replay trans st1)). split.
  - intros Hfired. apply Hdue in Hfired as [_ Hle]. rewrite A9, A12, E9, E12 in Hle.
    exact Hle.
  - rewrite G1, G2, G3, G4, G5, G6, G7, G8, G9, G10, G11, G12.
    rewrite T1, T2, T3, T4, T5, T6, T7, T8, T9, T10, T11, T12.
    rewrite A1, A2, A3, A4, A5, A6, A7, A8, A9, A10, A11, A12.
    rewrite E1, E2, E3, E4, E5, E6, E7, E8, E9, E10, E11, E12.
    reflexivity.
Qed.

(** A whole pull processed without raising. *)
Lemma steps_view (cfg : config) (ts : list (transition Obs)) (st st' : state) :
  steps cfg ts st = Ok st' ->
  added_samples (log (fst st')) = added_samples (log (fst st)) ++ ts
  /\ callbacks (log (fst st'))
     = callbacks (log (fst st)) ++ map episode_report (List.filter is_last ts)
  /\ pulls (log (fst st')) = pulls (log (fst st))
  /\ schedules (fst st')
     = map (fun c => c + Z.of_nat (length ts))%Z (schedules (fst st))
  /\ player (fst st') = player (fst st)
  /\ time_calls (fst st') = time_calls (fst st)
  /\ steps_taken (snd st') = (steps_taken (snd st) + Z.of_nat (length ts))%Z
  /\ num_episodes (snd st')
     = (num_episodes (snd st) + Z.of_nat (length (List.filter is_last ts)))%Z.
Proof.
  revert st. induction ts as [|t ts IH]; intros st.
  - intros [= <-]. cbn [length List.filter map]. rewrite !app_nil_r, !Z.add_0_r.
    repeat split; try reflexivity.
    rewrite <- (map_id (schedules (fst st))) at 1. apply map_ext. intros c. lia.
  - cbn [process_all]. destruct (step cfg t st) as [st1|] eqn:H1; [|discriminate].
    cbn [bind]. intros H2.
    apply step_view in H1 as (fired & _ & [= E1 E2 E3 E4 E5 E6 E7 E8 E9 E10 E11 E12]).
    apply IH in H2 as (I1 & I2 & I3 & I4 & I5 & I6 & I7 & I8).
    rewrite I1, I2, I3, I4, I5, I6, I7, I8, E1, E2, E4, E6, E7, E8, E9, E10.
    cbn [length List.filter]. rewrite <- !app_assoc, map_map.
    repeat split; try reflexivity.
    + f_equal. destruct (is_last t); reflexivity.
    + apply map_ext. intros c. lia.
    + lia.
    + destruct (is_last t); cbn [length]; lia.
Qed.

(** What the other parts of a turn change. *)
Lemma timed_out_view (cfg : config) (st : state) :
  log (fst (snd (timed_out clock cfg st))) = log (fst st)
  /\ snd (snd (timed_out clock cfg st)) = snd st
  /\ schedules (fst (snd (timed_out clock cfg st))) = schedules (fst st)
  /\ player (fst (snd (timed_out clock cfg st))) = player (fst st)
  /\ sess (fst (snd (timed_out clock cfg st))) = sess (fst st)
  /\ disk (fst (snd (timed_out clock cfg st))) = disk (fst st)
  /\ dirs (fst (snd (timed_out clock cfg st))) = dirs (fst st).
Proof. unfold timed_out. destruct (timeout cfg); repeat split. Qed.

Lemma pull_view (st : state) :
  log (fst (snd (pull st))) = log (fst st) ++ [EvPlay (length (fst (pull st)))]
  /\ snd (snd (pull st)) = snd st
  /\ schedules (fst (snd (pull st))) = schedules (fst st)
  /\ time_calls (fst (snd (pull st))) = time_calls (fst st)
  /\ disk (fst (snd (pull st))) = disk (fst st)
  /\ dirs (fst (snd (pull st))) = dirs (fst st)
  /\ fst (pull st) = fst (play (player (fst st)) (sess (fst st)))
  /\ player (fst (snd (pull st))) = snd (play (player (fst st)) (sess (fst st))).
Proof. unfold pull. destruct (play _ _). repeat split. Qed.

Lemma setup_view (cfg : config) (w : world Obs V B P) (st0 : state) :
  setup cfg w = Ok st0 ->
  snd st0 = initial_locals cfg (clock (time_calls w))
  /\ time_calls (fst st0) = S (time_calls w)
  /\ schedules (fst st0) = schedules w
  /\ disk (fst st0) = disk w
  /\ dirs (fst st0) = dirs w
  /\ added_samples (log (fst st0)) = added_samples (log w)
  /\ callbacks (log (fst st0)) = callbacks (log w)
  /\ pulls (log (fst st0)) = pulls (log w)
  /\ optimize_steps (log (fst st0)) = optimize_steps (log w)
  /\ saves (log (fst st0)) = saves (log w)
  /\ count_updates (log (fst st0)) = S (count_updates (log w))
  /\ player (fst st0) = player w.
Proof.
  unfold train_setup, run_update_target, restore.
  destruct (update_target _ _ _); [|discriminate].
  cbn [time_calls emit set_sess disk tick].
  destruct (restore_path cfg) as [path|]; [destruct (disk _ !! path); [|discriminate]|];
    intros [= <-]; cbn [fst snd]; read_trace; rewrite ?saves_app;
    cbn [saves omap list_omap]; rewrite ?app_nil_r; repeat split; lia.
Qed.

(** What is left of the state when a stage raises. *)
Lemma episode_raises (cfg : config) (trans : transition Obs) (st st' : state) (e : error) :
  on_episode cfg trans st = Raise e st' -> e = IndexError /\ st' = st.
Proof.
  destruct st as [w l]. unfold handle_episode.
  destruct (is_last trans); [|discriminate].
  destruct (Py.setitem _ _ _); [discriminate|]. now intros [= <- <-].
Qed.

Lemma train_raises (cfg : config) (st st' : state) (e : error) :
  on_train cfg st = Raise e st' ->
  e = InvalidArgument
  /\ log (fst st') = log (fst st) /\ disk (fst st') = disk (fst st)
  /\ dirs (fst st') = dirs (fst st).
Proof.
  destruct st as [w l]. unfold train_step.
  destruct (train_due cfg _); [|discriminate].
  destruct (sample _ _). destruct (dqn_losses _ _ _); [discriminate|].
  intros [= <- <-]. repeat split.
Qed.

Lemma target_raises (cfg : config) (st st' : state) (e : error) :
  on_target cfg st = Raise e st' ->
  e = FailedPrecondition
  /\ log (fst st') = log (fst st) /\ disk (fst st') = disk (fst st)
  /\ dirs (fst st') = dirs (fst st).
Proof.
  destruct st as [w l]. unfold target_step.
  destruct (_ <=? _)%Z; [|discriminate].
  destruct (run_update_target _ _ _); [discriminate|].
  intros [= <- <-]. repeat split.
Qed.

(** *** Invariants of the runs that do not raise *)

Lemma ends_not_raised (I : state -> Prop) (r : outcome * state) :
  ends_with I (fun _ _ => True) r -> not_raised (fst r) -> I (snd r).
Proof. unfold ends_with. destruct (fst r); cbn; tauto. Qed.

(** An invariant of the turns of the [while] loop that end without raising
    is an invariant of the loop. *)
Lemma loop_turns (I : state -> Prop) (cfg : config) :
  (forall st, I st -> I (snd (timed_out clock cfg st))) ->
  (forall st st3,
      I st -> (steps_taken (snd st) < num_steps cfg)%Z ->
      steps cfg (fst (pull st)) (snd (pull st)) = Ok st3 -> I st3) ->
  forall fuel st, I st -> not_raised (fst (loop fuel cfg st)) ->
                  I (snd (loop fuel cfg st)).
Proof.
  intros Htime Hturn fuel. induction fuel as [|fuel IH]; intros st Hst.
  - intros _. exact Hst.
  - cbn [train_loop].
    destruct (steps_taken (snd st) <? num_steps cfg)%Z eqn:Hlt; [|intros _; exact Hst].
    apply Z.ltb_lt in Hlt.
    specialize (Htime st Hst).
    destruct (timed_out_view cfg st) as (_ & Hl & _).
    destruct (timed_out clock cfg st) as [late st1]. cbn [snd] in *.
    destruct late; [intros _; exact Htime|].
    pose proof (Hturn st1) as Ht.
    destruct (pull st1) as [ts st2]. cbn [fst snd] in Ht.
    destruct (steps cfg ts st2) as [st3|e st3].
    + apply IH. apply (Ht st3 Htime); [now rewrite Hl|reflexivity].
    + intros [].
Qed.

Lemma run_turns (I : state -> Prop) (cfg : config) (w : world Obs V B P) :
  (forall st0, setup cfg w = Ok st0 -> I st0) ->
  (forall st, I st -> I (snd (timed_out clock cfg st))) ->
  (forall st st3,
      I st -> (steps_taken (snd st) < num_steps cfg)%Z ->
      steps cfg (fst (pull st)) (snd (pull st)) = Ok st3 -> I st3) ->
  forall fuel, not_raised (fst (run fuel cfg w)) -> I (snd (run fuel cfg w)).
Proof.
  intros Hsetup Htime Hturn fuel. unfold train.
  destruct (setup cfg w) as [st0|e st0].
  - apply loop_turns; auto.
  - intros [].
Qed.

(** The same for an invariant of each turn of the loop body. *)
Lemma run_steps (I : state -> Prop) (cfg : config) (w : world Obs V B P) :
  (forall st0, setup cfg w = Ok st0 -> I st0) ->
  (forall st, I st -> I (snd (timed_out clock cfg st))) ->
  (forall st, I st -> I (snd (pull st))) ->
  (forall trans st st', I st -> step cfg trans st = Ok st' -> I st') ->
  forall fuel, not_raised (fst (run fuel cfg w)) -> I (snd (run fuel cfg w)).
Proof.
  intros Hsetup Htime Hpull Hstep. apply run_turns; [exact Hsetup|exact Htime|].
  intros st st3 Hst _.
  generalize (Hpull st Hst). generalize (snd (pull st)). generalize (fst (pull st)).
  intros ts. induction ts as [|t ts IH]; intros st2 H2.
  - now intros [= <-].
  - cbn [process_all]. destruct (step cfg t st2) as [st'|] eqn:E; [|discriminate].
    cbn [bind]. apply IH. exact (Hstep t st2 st' H2 E).
Qed.

(** *** Samples, steps, schedules and episodes *)


(** X8. With a player that hands over at most [m] transitions per call, a
    run that does not raise takes at most [num_steps + m - 1] steps, and at
    least [num_steps] when it ends because the loop condition fails: the
    [for] loop finishes the pull that crosses [num_steps]. *)
Theorem steps_overshoot_bounded (good : P -> Prop) (cfg : config) (m : nat)
    (fuel : nat) (w : world Obs V B P) :
  (forall p s, good p ->
               (length (fst (play p s)) <= m)%nat /\ good (snd (play p s))) ->
  good (player w) ->
  not_raised (fst (run fuel cfg w)) ->
  (0 <= steps_taken (snd (snd (run fuel cfg w)))
   <= Z.max 0 (num_steps cfg + Z.of_nat m - 1))%Z
  /\ (fst (run fuel cfg w) = LoopExit ->
      (num_steps cfg <= steps_taken (snd (snd (run fuel cfg w))))%Z).
Proof.
  intros Hm Hgood Hnr. split.
  - revert Hnr.
    assert (Hinv : not_raised (fst (run fuel cfg w)) ->
                   good (player (fst (snd (run fuel cfg w))))
                   /\ (0 <= steps_taken (snd (snd (run fuel cfg w)))
                       <= Z.max 0 (num_steps cfg + Z.of_nat m - 1))%Z);
      [|intros Hnr; exact (proj2 (Hinv Hnr))].
    apply (run_turns
             (fun st => good (player (fst st))
                        /\ (0 <= steps_taken (snd st)
                            <= Z.max 0 (num_steps cfg + Z.of_nat m - 1))%Z)).
    + intros st0 H0.
      apply setup_view in H0 as (Hl & _ & _ & _ & _ & _ & _ & _ & _ & _ & _ & Hp).
      rewrite Hl, Hp. cbn. split; [exact Hgood|lia].
    + intros st H. destruct (timed_out_view cfg st) as (_ & Hs & _ & Hp & _).
      now rewrite Hs, Hp.
    + intros st st3 [Hg H] Hlt Hsteps.
      destruct (pull_view st) as (_ & Hs & _ & _ & _ & _ & Hts & Hp).
      apply steps_view in Hsteps as (_ & _ & _ & _ & S5 & _ & S7 & _).
      rewrite Hs, Hts in S7. rewrite S5, Hp.
      destruct (Hm (player (fst st)) (sess (fst st)) Hg) as [Hlen Hg'].
      split; [exact Hg'|lia].
  - clear Hnr. unfold train. destruct (setup cfg w) as [st0|e st0]; [|discriminate].
    generalize st0. clear st0.
    induction fuel as [|fuel IH]; intros st; [discriminate|]. cbn [train_loop].
    destruct (steps_taken (snd st) <? num_steps cfg)%Z eqn:Hlt.
    + destruct (timed_out clock cfg st) as [late st1].
      destruct late; [discriminate|]. destruct (pull st1) as [ts st2].
      destruct (steps cfg ts st2) as [st3|e st3]; [apply IH|discriminate].
    + intros _. cbn [snd]. now apply Z.ltb_ge in Hlt.
Qed.

(** *** Invariants of all runs *)

Lemma run_keeps (I : state -> Prop) (J : error -> state -> Prop) (cfg : config)
    (w : world Obs V B P) :
  step_keeps I J (setup cfg w) ->
  (forall st, I st -> I (snd (timed_out clock cfg st))) ->
  (forall st, I st -> I (snd (pull st))) ->
  (forall trans st, I st -> step_keeps I J (step cfg trans st)) ->
  forall fuel, ends_with I J (run fuel cfg w).
Proof.
  intros Hsetup Htime Hpull Hstep fuel. unfold train.
  destruct (setup cfg w) as [st0|e st0]; cbn [step_keeps] in Hsetup.
  - now apply loop_keeps.
  - exact Hsetup.
Qed.

Lemma ends_any (I : state -> Prop) (J : error -> state -> Prop) (Q : state -> Prop)
    (r : outcome * state) :
  ends_with I J r -> (forall st, I st -> Q st) -> (forall e st, J e st -> Q st) ->
  Q (snd r).
Proof. unfold ends_with. destruct (fst r); eauto. Qed.

Lemma setup_trace (cfg : config) (w : world Obs V B P) :
  step_keeps
    (fun st0 => snd st0 = initial_locals cfg (clock (time_calls w))
                /\ optimize_steps (log (fst st0)) = optimize_steps (log w)
                /\ saves (log (fst st0)) = saves (log w)
                /\ disk (fst st0) = disk w /\ dirs (fst st0) = dirs w)
    (fun _ st0 => optimize_steps (log (fst st0)) = optimize_steps (log w)
                  /\ saves (log (fst st0)) = saves (log w)
                  /\ disk (fst st0) = disk w /\ dirs (fst st0) = dirs w)
    (setup cfg w).
Proof.
  unfold train_setup, run_update_target, restore.
  destruct (update_target _ _ _); [|cbn; auto].
  cbn [time_calls emit set_sess disk tick].
  destruct (restore_path cfg) as [path|]; [destruct (disk _ !! path)|];
    cbn [step_keeps fst snd]; read_trace; rewrite ?saves_app;
    cbn [saves omap list_omap]; rewrite ?app_nil_r; auto.
Qed.

(** *** Gradient steps are never closer than the interval *)

Lemma spaced_snoc (k lo x : Z) (l : list Z) :
  spaced k lo (l ++ [x]) <-> spaced k lo l /\ (due_after k lo l <= x)%Z.
Proof.
  revert lo. induction l as [|y l IH]; intros lo; cbn [app spaced due_after].
  - tauto.
  - rewrite IH. tauto.
Qed.

Lemma due_after_snoc (k lo x : Z) (l : list Z) :
  due_after k lo (l ++ [x]) = (x + k)%Z.
Proof.
  revert lo. induction l as [|y l IH]; intros lo; cbn [app due_after].
  - reflexivity.
  - apply IH.
Qed.

(** X5. In every run started with an empty trace, whatever the buffer
    holds and however the run ends, the first gradient step is not before
    step [train_interval] and each later one is at least [train_interval]
    steps after the one before: a threshold that was crossed fires once. *)
Theorem gradient_steps_spaced (cfg : config) (fuel : nat) (w : world Obs V B P) :
  optimize_steps (log w) = [] ->
  spaced (train_interval cfg) (train_interval cfg)
    (optimize_steps (log (fst (snd (run fuel cfg w))))).
Proof.
  intros Hlog. set (k := train_interval cfg).
  apply (ends_any
           (fun st => spaced k k (optimize_steps (log (fst st)))
                      /\ due_after k k (optimize_steps (log (fst st)))
                         = next_train_step (snd st))
           (fun _ st => spaced k k (optimize_steps (log (fst st))))
           (fun st => spaced k k (optimize_steps (log (fst st))))
           (run fuel cfg w)); [|tauto|auto].
  apply run_keeps.
  - pose proof (setup_trace cfg w) as Hs.
    destruct (setup cfg w) as [st0|e st0]; cbn [step_keeps] in *.
    + destruct Hs as (Hl & Ho & _). rewrite Ho, Hlog, Hl. cbn. auto.
    + destruct Hs as (Ho & _). rewrite Ho, Hlog. exact I.
  - intros st H. destruct (timed_out_view cfg st) as (Hl & Hs & _). now rewrite Hl, Hs.
  - intros st H. destruct (pull_view st) as (Hl & Hs & _). rewrite Hl, Hs.
    rewrite optimize_steps_app. cbn [optimize_steps omap list_omap].
    now rewrite app_nil_r.
  - intros trans. apply step_by_three.
    + intros st H. destruct (on_episode cfg trans st) as [st'|e st'] eqn:E;
        cbn [step_keeps].
      * apply episode_view in E as [= _ _ _ _ E5 _ _ _ _ _ _ E12]. now rewrite E5, E12.
      * apply episode_raises in E as [_ ->]. apply H.
    + intros st [Hsp Hdue].
      pose proof (add_view trans st) as [= _ _ _ _ A5 _ _ _ A9 _ _ A12].
      pose proof (train_due_iff cfg (add_to_replay trans st)) as Hiff.
      destruct (on_train cfg (add_to_replay trans st)) as [st'|e st'] eqn:E;
        cbn [step_keeps].
      * apply train_view in E as [= _ _ _ _ T5 _ _ _ _ _ _ T12].
        rewrite T5, T12, A5, A9, A12.
        destruct (train_due cfg (add_to_replay trans st)).
        -- destruct Hiff as [Hiff _]. destruct (Hiff eq_refl) as [_ Hle].
           rewrite A9, A12, <- Hdue in Hle.
           split; [apply spaced_snoc; auto|apply due_after_snoc].
        -- now rewrite app_nil_r.
      * apply train_raises in E as (_ & Hl & _).
        assert (Ho : optimize_steps (log (fst st'))
                     = optimize_steps (log (fst (add_to_replay trans st))))
          by now rewrite Hl.
        rewrite Ho, A5. exact Hsp.
    + intros st H. destruct (on_target cfg st) as [st'|e st'] eqn:E; cbn [step_keeps].
      * apply target_view in E as [= _ _ _ _ G5 _ _ _ _ _ _ G12]. now rewrite G5, G12.
      * apply target_raises in E as (_ & Hl & _). rewrite Hl. apply H.
Qed.

(** *** The target update's cadence *)

(** X6. With a positive [target_interval], a run that does not raise,
    started with an empty trace, has run the target update once before the
    loop and once more at every multiple of [target_interval] among the
    steps taken: [1 + steps_taken / target_interval] times in all, the next
    one being due at the next multiple. *)
Theorem target_updates_counted (cfg : config) (k : Z) (fuel : nat)
    (w : world Obs V B P) :
  target_interval cfg = k -> (0 < k)%Z ->
  count_updates (log w) = 0%nat ->
  not_raised (fst (run fuel cfg w)) ->
  count_updates (log (fst (snd (run fuel cfg w))))
  = S (Z.to_nat (steps_taken (snd (snd (run fuel cfg w))) / k))
  /\ next_target_update (snd (snd (run fuel cfg w)))
     = (k * (steps_taken (snd (snd (run fuel cfg w))) / k + 1))%Z.
Proof.
  intros Hk Hpos Hlog Hnr.
  assert (Hinv : (0 <= steps_taken (snd (snd (run fuel cfg w))))%Z
                 /\ next_target_update (snd (snd (run fuel cfg w)))
                    = (k * (steps_taken (snd (snd (run fuel cfg w))) / k + 1))%Z
                 /\ count_updates (log (fst (snd (run fuel cfg w))))
                    = S (Z.to_nat (steps_taken (snd (snd (run fuel cfg w))) / k)));
    [|tauto].
  revert Hnr.
  apply (run_steps
           (fun st => (0 <= steps_taken (snd st))%Z
                      /\ next_target_update (snd st)
                         = (k * (steps_taken (snd st) / k + 1))%Z
                      /\ count_updates (log (fst st))
                         = S (Z.to_nat (steps_taken (snd st) / k)))).
  - intros st0 H0.
    apply setup_view in H0 as (Hl & _ & _ & _ & _ & _ & _ & _ & _ & _ & Hc & _).
    rewrite Hl, Hc, Hlog. cbn [steps_taken next_target_update initial_locals].
    rewrite Z.div_0_l by lia. cbn. split; [lia|]. split; [lia|reflexivity].
  - intros st H. destruct (timed_out_view cfg st) as (Hl & Hs & _). now rewrite Hl, Hs.
  - intros st H. destruct (pull_view st) as (Hl & Hs & _). rewrite Hl, Hs.
    rewrite count_updates_app. cbn [count_updates List.filter length].
    now rewrite Nat.add_0_r.
  - intros trans st st' (H0 & Hnext & Hcount) E.
    apply step_view in E as (fired & _ & [= _ _ E3 _ _ _ _ _ E9 _ E11 _]).
    rewrite E3, E9, E11, Hnext, Hcount.
    destruct (k * (steps_taken (snd st) / k + 1) <=? steps_taken (snd st) + 1)%Z eqn:D.
    + apply Z.leb_le in D.
      destruct (cadence_fire k (steps_taken (snd st)) Hpos H0 D) as [Hq Hmul].
      rewrite Hq. split; [lia|]. split; [rewrite Hk; lia|].
      rewrite Z2Nat.inj_add by (try apply Z.div_pos; lia). cbn. lia.
    + apply Z.leb_gt in D.
      rewrite (cadence_wait k (steps_taken (snd st)) Hpos H0) by lia.
      split; [lia|]. split; [reflexivity|lia].
Qed.

(** *** Checkpoints over a run *)






(** X10. When [save_interval] is not set, or is zero, a run never writes:
    however it ends, no checkpoint is recorded and the files and
    directories are those it started with. *)
Theorem no_checkpoint_without_interval (cfg : config) (fuel : nat)
    (w : world Obs V B P) :
  save_interval cfg = None \/ save_interval cfg = Some 0%Z ->
  saves (log (fst (snd (run fuel cfg w)))) = saves (log w)
  /\ disk (fst (snd (run fuel cfg w))) = disk w
  /\ dirs (fst (snd (run fuel cfg w))) = dirs w.
Proof.
  intros Hoff.
  assert (Hnever : forall l, save_due cfg l = false).
  { intros l. unfold save_due. destruct Hoff as [-> | ->]; reflexivity. }
  assert (Hinv : saved (fst (snd (run fuel cfg w))) = saved w);
    [|now injection Hinv].
  apply (ends_any (fun st => saved (fst st) = saved w)
           (fun _ st => saved (fst st) = saved w)
           (fun st => saved (fst st) = saved w) (run fuel cfg w)); [|auto|auto].
  apply run_keeps.
  - pose proof (setup_trace cfg w) as Hs.
    destruct (setup cfg w) as [st0|e st0]; cbn [step_keeps] in *.
    + destruct Hs as (_ & _ & H1 & H2 & H3). now rewrite H1, H2, H3.
    + destruct Hs as (_ & H1 & H2 & H3). now rewrite H1, H2, H3.
  - intros st H.
    destruct (timed_out_view cfg st) as (Hl & _ & _ & _ & _ & Hd & Hdir).
    now rewrite Hl, Hd, Hdir.
  - intros st H. destruct (pull_view st) as (Hl & _ & _ & _ & Hd & Hdir & _).
    rewrite Hl, Hd, Hdir, saves_app. cbn [saves omap list_omap].
    now rewrite app_nil_r.
  - intros trans. apply step_by_three.
    + intros st H. destruct (on_episode cfg trans st) as [st'|e st'] eqn:E;
        cbn [step_keeps].
      * apply episode_checkpoint in E as (Hs & _). rewrite Hnever, andb_false_r in Hs.
        now rewrite Hs.
      * apply episode_raises in E as [_ ->]. exact H.
    + intros st H. destruct (add_checkpoint trans st) as [Ha _].
      destruct (on_train cfg (add_to_replay trans st)) as [st'|e st'] eqn:E;
        cbn [step_keeps].
      * apply train_checkpoint in E as [Hs _]. now rewrite Hs, Ha.
      * apply train_raises in E as (_ & Hl & Hd & Hdir).
        injection Ha as A1 A2 A3. now rewrite Hl, Hd, Hdir, A1, A2, A3.
    + intros st H. destruct (on_target cfg st) as [st'|e st'] eqn:E; cbn [step_keeps].
      * apply target_checkpoint in E as [Hs _]. now rewrite Hs.
      * apply target_raises in E as (_ & Hl & Hd & Hdir). now rewrite Hl, Hd, Hdir.
Qed.

(** *** Readings of the clock *)

Lemma loop_clock (cfg : config) (n : nat) (fuel : nat) (st : state) :
  time_calls (fst st)
  = (n + match timeout cfg with
         | Some _ => length (pulls (log (fst st)))
         | None => 0
         end)%nat ->
  not_raised (fst (loop fuel cfg st)) ->
  time_calls (fst (snd (loop fuel cfg st)))
  = (n + match timeout cfg with
         | Some _ => length (pulls (log (fst (snd (loop fuel cfg st)))))
                     + match fst (loop fuel cfg st) with TimedOut => 1 | _ => 0 end
         | None => 0
         end)%nat
  /\ (timeout cfg = None -> fst (loop fuel cfg st) = TimedOut -> False).
Proof.
  revert st. induction fuel as [|fuel IH]; intros st Hst.
  - intros _. cbn [train_loop fst snd]. rewrite Hst.
    split; [destruct (timeout cfg); lia|discriminate].
  - cbn [train_loop].
    destruct (steps_taken (snd st) <? num_steps cfg)%Z.
    2:{ intros _. cbn [fst snd]. rewrite Hst.
        split; [destruct (timeout cfg); lia|discriminate]. }
    destruct st as [w l]. unfold timed_out. cbn [fst snd] in *.
    destruct (timeout cfg) as [t|] eqn:Ht.
    + destruct (Qltb t _).
      * intros _. cbn [fst snd tick time_calls log]. split; [lia|discriminate].
      * destruct (pull_view (tick w, l)) as (Hl & _ & _ & Htc & _).
        destruct (pull (tick w, l)) as [ts st2]. cbn [fst snd] in *.
        destruct (steps cfg ts st2) as [st3|e st3] eqn:E; [|intros []].
        apply steps_view in E as (_ & _ & S3 & _ & _ & S6 & _).
        intros Hnr. destruct (IH st3) as [Hc _]; [|exact Hnr|].
        -- rewrite S6, S3, Htc, Hl, pulls_app, length_app.
           change (length (pulls [EvPlay (Obs := Obs) (length ts)])) with 1%nat.
           cbn [time_calls tick log]. lia.
        -- split; [exact Hc|discriminate].
    + destruct (pull_view (w, l)) as (Hl & _ & _ & Htc & _).
      destruct (pull (w, l)) as [ts st2]. cbn [fst snd] in *.
      destruct (steps cfg ts st2) as [st3|e st3] eqn:E; [|intros []].
      apply steps_view in E as (_ & _ & _ & _ & _ & S6 & _).
      intros Hnr. destruct (IH st3) as [Hc Hno]; [|exact Hnr|].
      * rewrite S6, Htc. exact Hst.
      * split; [exact Hc|]. intros _. now apply Hno.
Qed.

(** X11. In a run that does not raise, started with an empty trace, the
    clock is read once for [start_time] and, when a timeout is set, once at
    the start of each turn of the [while] loop: once per pull, and once more
    for the test that ends the run when it times out.  Without a timeout
    the clock is read only for [start_time] and the run never ends by
    timing out. *)
Theorem clock_reads_counted (cfg : config) (fuel : nat) (w : world Obs V B P) :
  pulls (log w) = [] ->
  not_raised (fst (run fuel cfg w)) ->
  time_calls (fst (snd (run fuel cfg w)))
  = (S (time_calls w)
     + match timeout cfg with
       | Some _ => length (pulls (log (fst (snd (run fuel cfg w)))))
                   + match fst (run fuel cfg w) with TimedOut => 1 | _ => 0 end
       | None => 0
       end)%nat
  /\ (timeout cfg = None -> fst (run fuel cfg w) = TimedOut -> False).
Proof.
  intros Hlog. unfold train.
  destruct (setup cfg w) as [st0|e st0] eqn:Hsetup; [|intros []].
  apply setup_view in Hsetup as (_ & Htc & _ & _ & _ & _ & _ & Hp & _).
  apply loop_clock. rewrite Htc, Hp, Hlog. destruct (timeout cfg); cbn; lia.
Qed.

(** *** The reward list *)

Lemma step_rewards (cfg : config) (trans : transition Obs) (st st' : state) :
  step cfg trans st = Ok st' ->
  env_rewards (snd st') = book (env_rewards (snd st)) trans.
Proof.
  destruct st as [w l]. unfold process_transition.
  destruct (on_episode cfg trans (w, l)) as [[w1 l1]|] eqn:Hep; [|discriminate].
  assert (H1 : env_rewards l1 = book (env_rewards l) trans).
  { revert Hep. unfold handle_episode, book.
    destruct (is_last trans); [|now intros [= <- <-]].
    destruct (Py.setitem _ _ _); [|discriminate]. now intros [= <- <-]. }
  cbn [bind].
  destruct (on_train cfg (add_to_replay trans (w1, l1))) as [[w2 l2]|] eqn:Htr;
    [|discriminate].
  assert (H2 : env_rewards l2 = env_rewards l1).
  { revert Htr. unfold train_step, add_to_replay.
    destruct (train_due cfg _); [|now intros [= <- <-]].
    destruct (sample _ _). destruct (dqn_losses _ _ _); [|discriminate].
    now intros [= <- <-]. }
  cbn [bind]. unfold target_step.
  destruct (_ <=? _)%Z; [|intros [= <-]; cbn [snd]; congruence].
  destruct (run_update_target _ _ _); [|discriminate].
  intros [= <-]. cbn [snd env_rewards]. congruence.
Qed.

Lemma book_length (er : list Q) (t : transition Obs) :
  length (book er t) = length er.
Proof.
  unfold book, Py.setitem. destruct (is_last t); [|reflexivity].
  destruct (Py.index _ _); [apply length_insert|reflexivity].
Qed.

Lemma book_all_length (ts : list (transition Obs)) (er : list Q) :
  length (fold_left book ts er) = length er.
Proof.
  revert er. induction ts as [|t ts IH]; intros er; cbn [fold_left]; [reflexivity|].
  now rewrite IH, book_length.
Qed.

Lemma book_hit (er : list Q) (t : transition Obs) (i : nat) :
  slot (length er) t = Some i -> book er t !! i = Some (total_reward t).
Proof.
  unfold slot, book, Py.setitem. destruct (is_last t); [|discriminate].
  intros Hi. rewrite Hi. apply list_lookup_insert_eq.
  now apply index_position in Hi as [Hlt _].
Qed.

Lemma book_miss (er : list Q) (t : transition Obs) (i : nat) :
  slot (length er) t <> Some i -> book er t !! i = er !! i.
Proof.
  unfold slot, book, Py.setitem. destruct (is_last t); [|reflexivity].
  destruct (Py.index _ _) as [k|]; [|reflexivity].
  intros Hne. apply list_lookup_insert_ne. congruence.
Qed.

Lemma book_all_miss (ts : list (transition Obs)) (er : list Q) (i : nat) :
  (forall t, t ∈ ts -> slot (length er) t <> Some i) ->
  fold_left book ts er !! i = er !! i.
Proof.
  revert er. induction ts as [|t ts IH]; intros er Hmiss; cbn [fold_left];
    [reflexivity|].
  rewrite IH.
  - apply book_miss, Hmiss. left.
  - intros t' Ht'. rewrite book_length. apply Hmiss. now right.
Qed.

Lemma repeat_lookup {A : Type} (x : A) (n i : nat) :
  (i < n)%nat -> List.repeat x n !! i = Some x.
Proof.
  revert i. induction n as [|n IH]; intros [|i] Hi; cbn; try lia; try reflexivity.
  apply IH. lia.
Qed.

(** X12. In a run that does not raise, started with an empty trace, the
    reward list is the list of [num_envs] zeros overwritten, in order, by
    the episode-ending samples added: a slot holds the [total_reward] of
    the last added sample that wrote it, and zero when none did. *)
Theorem rewards_booked (cfg : config) (fuel : nat) (w : world Obs V B P) :
  added_samples (log w) = [] ->
  not_raised (fst (run fuel cfg w)) ->
  env_rewards (snd (snd (run fuel cfg w)))
  = fold_left book (added_samples (log (fst (snd (run fuel cfg w)))))
      (Py.replicate 0 (num_envs cfg))
  /\ (forall before t after i,
         added_samples (log (fst (snd (run fuel cfg w)))) = before ++ t :: after ->
         slot (Z.to_nat (num_envs cfg)) t = Some i ->
         (forall t', t' ∈ after -> slot (Z.to_nat (num_envs cfg)) t' <> Some i) ->
         env_rewards (snd (snd (run fuel cfg w))) !! i = Some (total_reward t))
  /\ (forall i,
         (i < Z.to_nat (num_envs cfg))%nat ->
         (forall t, t ∈ added_samples (log (fst (snd (run fuel cfg w)))) ->
                    slot (Z.to_nat (num_envs cfg)) t <> Some i) ->
         env_rewards (snd (snd (run fuel cfg w))) !! i = Some 0).
Proof.
  intros Hlog Hnr.
  assert (Hlen : length (Py.replicate 0 (num_envs cfg)) = Z.to_nat (num_envs cfg)).
  { unfold Py.replicate. apply repeat_length. }
  assert (Hinv : env_rewards (snd (snd (run fuel cfg w)))
                 = fold_left book (added_samples (log (fst (snd (run fuel cfg w)))))
                     (Py.replicate 0 (num_envs cfg))).
  { revert Hnr.
    apply (run_steps
             (fun st => env_rewards (snd st)
                        = fold_left book (added_samples (log (fst st)))
                            (Py.replicate 0 (num_envs cfg)))).
    - intros st0 H0. apply setup_view in H0 as (Hl & _ & _ & _ & _ & Ha & _).
      rewrite Hl, Ha, Hlog. reflexivity.
    - intros st H. destruct (timed_out_view cfg st) as (Hl & Hs & _). now rewrite Hl, Hs.
    - intros st H. destruct (pull_view st) as (Hl & Hs & _). rewrite Hl, Hs.
      rewrite added_samples_app. cbn [added_samples omap list_omap].
      now rewrite app_nil_r.
    - intros trans st st' H E. rewrite (step_rewards _ _ _ _ E).
      apply step_view in E as (_ & _ & [= E1 _ _ _ _ _ _ _ _ _ _ _]).
      rewrite E1, fold_left_app, H. reflexivity. }
  split; [exact Hinv|]. split.
  - intros before t after i Hsplit Hslot Hafter.
    rewrite Hinv, Hsplit, fold_left_app. cbn [fold_left].
    rewrite book_all_miss.
    + apply book_hit. now rewrite book_all_length, Hlen.
    + intros t' Ht'. rewrite book_length, book_all_length, Hlen. now apply Hafter.
  - intros i Hi Hmiss. rewrite Hinv, book_all_miss.
    + unfold Py.replicate. now apply repeat_lookup.
    + intros t Ht. rewrite Hlen. now apply Hmiss.
Qed.

(** *** Variables the run leaves alone *)




End TrainFacts.

Lemma episode_slot_bounds_witness :
  exists st' k,
    handle_episode (B := list (transition nat)) (P := list (transition nat))
      ["online/w"] one_step_config (final_step 0)
      (demo_world [], initial_locals one_step_config 0) = Ok st'
    /\ Z.of_nat k = 0%Z
    /\ env_rewards (snd st') = <[k := 1]> [0]
    /\ env_rewards (snd st') !! k = Some 1.
Proof.
  apply (proj1 (episode_slot_bounds (RB := list_buffer) (PL := repeating_player)
                  (fun l : list nat => l) demo_loss (99 # 100)
                  ["target/w"] ["online/w"] ["online/w"]
                  (fun s _ => s) ticking_clock
                  one_step_config (final_step 0)
                  (demo_world [], initial_locals one_step_config 0)
                  eq_refl eq_refl)).
  cbn. lia.
Defined.

(** With one environment, an episode's last transition whose [episode_id] is
    [-1] is booked without error, in the only slot. *)
Lemma episode_slot_negative :
  fst (demo_train ticking_clock 5 one_step_config (demo_world [final_step (-1)]))
  = LoopExit
  /\ env_rewards (snd (snd (demo_train ticking_clock 5 one_step_config
                              (demo_world [final_step (-1)])))) = [1]
  /\ episode_id (final_step (-1)) = (-1)%Z
  /\ num_envs one_step_config = 1%Z.
Proof. vm_compute. repeat split. Qed.

Lemma train_step_gate_witness :
  fst (demo_train ticking_clock 20 cadence_config (demo_world [plain_step])) = LoopExit
  /\ optimize_steps
       (log (fst (snd (demo_train ticking_clock 20 cadence_config
                         (demo_world [plain_step])))))
     = [4; 8; 12]%Z.
Proof.
  split; [vm_compute; reflexivity|].
  unfold demo_train.
  rewrite (proj2 (proj2 (proj2 (proj2
             (train_step_gate (RB := list_buffer) (PL := repeating_player)
                (fun l : list nat => l) demo_loss (99 # 100)
                ["target/w"] ["online/w"]
                ["online/w"; "target/w"; "ScheduleCounter"]
                (fun s _ => alter (fun v => v + 1) "online/w" s) ticking_clock))))
             cadence_config 4%Z 20%nat (demo_world [plain_step])).
  - vm_compute. reflexivity.
  - reflexivity.
  - reflexivity.
  - intros b. cbn. lia.
  - reflexivity.
  - vm_compute. discriminate.
Defined.

(** A run that is given another checkpoint path to restore from still writes
    its own checkpoint under [./checkpoints_rainbow/model], tagged 0, without
    the schedule counter. *)
Lemma checkpoint_path_fixed :
  fst (demo_train ticking_clock 5 saving_config (restored_world [final_step 0]))
  = LoopExit
  /\ restore_path saving_config = Some "elsewhere/model-0"
  /\ saves (log (fst (snd (demo_train ticking_clock 5 saving_config
                             (restored_world [final_step 0])))))
     = [("./checkpoints_rainbow/model", 0%Z)]
  /\ disk (fst (snd (demo_train ticking_clock 5 saving_config
                       (restored_world [final_step 0]))))
       !! "./checkpoints_rainbow/model-0"
     = Some {[ "online/w" := 7; "target/w" := 3 ]}.
Proof. vm_compute. repeat split. Qed.

Lemma timeout_return_witness :
  fst (demo_train ticking_clock 1 zero_timeout_config (demo_world [plain_step]))
  = TimedOut
  /\ added_samples
       (log (fst (snd (demo_train ticking_clock 1 zero_timeout_config
                         (demo_world [plain_step])))))
     = [].
Proof.
  pose proof (proj1 (timeout_return (RB := list_buffer) (PL := repeating_player)
                       (fun l : list nat => l) demo_loss (99 # 100)
                       ["target/w"] ["online/w"]
                       ["online/w"; "target/w"; "ScheduleCounter"]
                       (fun s _ => alter (fun v => v + 1) "online/w" s)
                       ticking_clock)
                zero_timeout_config 0%nat (demo_world [plain_step])
                (tick (emit EvUpdateTarget
                         (set_sess
                            {[ "online/w" := 1; "target/w" := 1; "ScheduleCounter" := 0 ]}
                            (demo_world [plain_step]))),
                 initial_locals zero_timeout_config 0)
                0 eq_refl (Qeq_refl 0) eq_refl) as H.
  destruct H as (Hrun & _ & Hadd & _); [vm_compute; reflexivity | reflexivity |].
  unfold demo_train. rewrite Hrun. split; [reflexivity | exact Hadd].
Defined.

(** With a clock that returns the same reading twice, a run with
    [timeout = 0] and [num_steps = 1] does not return at the test: it pulls
    its transition, inserts it in the buffer and ends when the loop
    condition fails. *)
Lemma zero_timeout_frozen_clock :
  fst (demo_train frozen_clock 5 zero_timeout_config (demo_world [plain_step]))
  = LoopExit
  /\ added_samples
       (log (fst (snd (demo_train frozen_clock 5 zero_timeout_config
                         (demo_world [plain_step])))))
     = [plain_step]
  /\ timeout zero_timeout_config = Some 0
  /\ num_steps zero_timeout_config = 1%Z.
Proof. vm_compute. repeat split. Qed.

Lemma restore_follows_sync_witness :
  exists w',
    train_setup ["target/w"] ["online/w"] ticking_clock restoring_config
      (restored_world [])
    = Ok (w', initial_locals restoring_config 0)
    /\ log w' = [EvUpdateTarget; EvRestore elsewhere]
    /\ sess w' !! "target/w" = Some 3
    /\ sess w' !! "online/w" = Some 7.
Proof.
  destruct (restore_follows_sync (B := list (transition nat))
              (P := list (transition nat)) ["target/w"] ["online/w"] ticking_clock
              restoring_config (restored_world []) elsewhere
              {[ "online/w" := 1; "target/w" := 1; "ScheduleCounter" := 0 ]}
              {[ "online/w" := 7; "target/w" := 3 ]}
              eq_refl eq_refl eq_refl)
    as (w' & Hsetup & Hlog & _ & Hsess & _).
  exists w'. split; [exact Hsetup|]. split; [exact Hlog|].
  split; rewrite Hsess; reflexivity.
Defined.

(** A run that restores a checkpoint and takes no step: the target update
    comes first in the trace, the restore second, and the session ends with
    the checkpoint's values, the target variable behind the online one. *)
Lemma restore_leaves_target_behind :
  fst (demo_train ticking_clock 5 restoring_config (restored_world [])) = LoopExit
  /\ log (fst (snd (demo_train ticking_clock 5 restoring_config (restored_world []))))
     = [EvUpdateTarget; EvRestore "elsewhere/model-0"]
  /\ sess (fst (snd (demo_train ticking_clock 5 restoring_config (restored_world []))))
       !! "online/w" = Some 7
  /\ sess (fst (snd (demo_train ticking_clock 5 restoring_config (restored_world []))))
       !! "target/w" = Some 3.
Proof. vm_compute. repeat split. Qed.

Lemma train_terminates_witness :
  exists out st,
    demo_train ticking_clock 13 cadence_config (demo_world [plain_step]) = (out, st)
    /\ out <> OutOfFuel.
Proof.
  apply (train_terminates (RB := list_buffer) (PL := repeating_player)
           (fun l : list nat => l) demo_loss (99 # 100)
           ["target/w"] ["online/w"]
           ["online/w"; "target/w"; "ScheduleCounter"]
           (fun s _ => alter (fun v => v + 1) "online/w" s) ticking_clock
           (fun p => p <> [])).
  - intros p s Hp. cbn. auto.
  - discriminate.
  - cbn. lia.
Defined.

(** The end-to-end scenario: every call of the stepper returns one terminal
    transition of reward 1.  Ten samples enter the buffer, the callback runs
    ten times with reward 1, the target update runs three times (before the
    loop, at step 5 and at step 10) and a gradient step runs at every step. *)
Example end_to_end_scenario :
  fst (demo_train ticking_clock 11 scenario_config (demo_world [final_step 0]))
  = LoopExit
  /\ length (added_samples
               (log (fst (snd (demo_train ticking_clock 11 scenario_config
                                 (demo_world [final_step 0])))))) = 10%nat
  /\ callback_rewards
       (log (fst (snd (demo_train ticking_clock 11 scenario_config
                         (demo_world [final_step 0])))))
     = repeat 1 10
  /\ count_updates
       (log (fst (snd (demo_train ticking_clock 11 scenario_config
                         (demo_world [final_step 0]))))) = 3%nat
  /\ optimize_steps
       (log (fst (snd (demo_train ticking_clock 11 scenario_config
                         (demo_world [final_step 0])))))
     = [1; 2; 3; 4; 5; 6; 7; 8; 9; 10]%Z.
Proof. vm_compute. repeat split. Qed.

(** * Further properties *)

(** ** More on the discounted return *)

Lemma pow_add (x : Q) (n m : nat) :
  Py.pow x (n + m) == Py.pow x n * Py.pow x m.
Proof.
  unfold Py.pow. rewrite Nat2Z.inj_add.
  destruct n as [|n].
  - change (Z.of_nat 0) with 0%Z. rewrite Z.add_0_l. simpl (x ^ 0). ring.
  - apply Qpower_plus'. lia.
Qed.

Lemma sum_below_scale (k : nat) (c : Q) (f : nat -> Q) :
  sum_below k (fun i => c * f i) == c * sum_below k f.
Proof.
  induction k as [|k IH]; simpl.
  - ring.
  - rewrite IH. ring.
Qed.

Lemma enumerate_from_app {A : Type} (i : nat) (xs ys : list A) :
  Py.enumerate_from i (xs ++ ys)
  = Py.enumerate_from i xs ++ Py.enumerate_from (i + length xs) ys.
Proof.
  revert i. induction xs as [|x xs IH]; intros i; cbn [Py.enumerate_from app length].
  - now rewrite Nat.add_0_r.
  - rewrite IH. do 3 f_equal. lia.
Qed.

(** The return of a sequence from a later counter is the return from
    counter zero, discounted by the steps skipped. *)
Lemma discounted_fold_shift (discount : Q) (rews : list Q) (i : nat) (acc : Q) :
  fold_left (discounted_step discount) (Py.enumerate_from i rews) acc
  == acc + Py.pow discount i * _discounted_rewards discount rews.
Proof.
  unfold _discounted_rewards, Py.enumerate. rewrite !discounted_fold.
  rewrite (sum_below_ext (length rews)
             (fun j => nth j rews 0 * Py.pow discount (i + j))
             (fun j => Py.pow discount i * (nth j rews 0 * Py.pow discount (0 + j)))).
  - rewrite sum_below_scale. ring.
  - intros j _. rewrite pow_add. simpl (0 + j)%nat. ring.
Qed.

Lemma reduce_sum_discount_one (rews : list Q) :
  _discounted_rewards 1 rews == Tensor.reduce_sum rews.
Proof.
  unfold _discounted_rewards, Py.enumerate. rewrite discounted_fold.
  rewrite reduce_sum_by_index, Qplus_0_l. apply sum_below_ext. intros j _.
  unfold Py.pow. rewrite Qpower_1. ring.
Qed.

(** X1. The return of two reward sequences played one after the other is
    the return of the first plus the return of the second discounted by
    [discount ** len(first)], the per-sample discount [feed_dict] gives the
    first; so the return of [r :: rest] is [r + discount * return rest], and
    with a discount of one the return is the plain sum. *)
Theorem discounted_rewards_append :
  (forall (discount : Q) (first second : list Q),
      _discounted_rewards discount (first ++ second)
      == _discounted_rewards discount first
         + Py.pow discount (length first) * _discounted_rewards discount second)
  /\ (forall (discount r : Q) (rest : list Q),
         _discounted_rewards discount (r :: rest)
         == r + discount * _discounted_rewards discount rest)
  /\ (forall rews : list Q, _discounted_rewards 1 rews == Tensor.reduce_sum rews).
Proof.
  assert (Happ : forall (discount : Q) (first second : list Q),
             _discounted_rewards discount (first ++ second)
             == _discounted_rewards discount first
                + Py.pow discount (length first) * _discounted_rewards discount second).
  { intros discount first second.
    unfold _discounted_rewards at 1. unfold Py.enumerate.
    rewrite enumerate_from_app, fold_left_app. simpl (0 + _)%nat.
    rewrite discounted_fold_shift. reflexivity. }
  split; [exact Happ|]. split; [|exact reduce_sum_discount_one].
  intros discount r rest. change (r :: rest) with ([r] ++ rest).
  rewrite Happ. cbn [length]. rewrite pow_one_exponent.
  apply Qplus_comp; [|reflexivity].
  unfold _discounted_rewards, Py.enumerate. cbn [Py.enumerate_from fold_left].
  unfold discounted_step. cbn [fst snd]. rewrite pow_zero_exponent. ring.
Qed.

(** ** More on the batch encoding *)


(** ** More on the target update *)

Section UpdateTargetEdges.

Context {V : Type}.
Implicit Types (s : gmap string V) (ps : list (string * string)).

Lemma zip_destinations (target_vars online_vars : list string) :
  (zip target_vars online_vars).*1 = take (length online_vars) target_vars.
Proof.
  revert online_vars. induction target_vars as [|t ts IH]; intros [|o os]; cbn;
    try reflexivity.
  f_equal. apply IH.
Qed.

(** A group of assignments fails when one of its sources has no value and
    is not itself assigned by the group. *)
Lemma run_assigns_missing ps s d sr :
  (d, sr) ∈ ps -> s !! sr = None -> sr ∉ ps.*1 -> run_assigns ps s = None.
Proof.
  revert s. induction ps as [|[d0 sr0] ps IH]; intros s Hin Hnone Hnot.
  - inversion Hin.
  - cbn [run_assigns]. unfold assign.
    destruct (s !! sr0) as [v|] eqn:E; [|reflexivity].
    cbn [fmap list_fmap fst] in Hnot. apply not_elem_of_cons in Hnot as [Hne Hnot].
    apply elem_of_cons in Hin as [[= -> ->]|Hin]; [congruence|].
    apply IH; [exact Hin| |exact Hnot].
    rewrite lookup_insert_ne by congruence. exact Hnone.
Qed.

End UpdateTargetEdges.

(** X3. [update_target] pairs the variables as [zip] does, up to the shorter
    list.  With pairwise distinct target variables that share no storage
    with the online ones, it succeeds as soon as the online variables that
    have a partner have values; a target variable past the end of the online
    list keeps its value, and an online variable past the end of the target
    list is not read.  It fails when a paired online variable has no
    value. *)
Theorem update_target_unpaired {V : Type} (target_vars online_vars : list string)
    (s : gmap string V) :
  NoDup target_vars ->
  (forall x, x ∈ target_vars -> x ∉ online_vars) ->
  ((forall i src,
       (i < length target_vars)%nat -> online_vars !! i = Some src ->
       is_Some (s !! src)) ->
   exists s',
     update_target target_vars online_vars s = Some s'
     /\ (forall i dst,
            target_vars !! i = Some dst -> (length online_vars <= i)%nat ->
            s' !! dst = s !! dst)
     /\ (forall x, x ∈ online_vars -> s' !! x = s !! x))
  /\ (forall i dst src,
         target_vars !! i = Some dst -> online_vars !! i = Some src ->
         s !! src = None ->
         update_target target_vars online_vars s = None).
Proof.
  intros Hnd Hdisj.
  assert (Hfst : forall d, d ∈ (zip target_vars online_vars).*1 -> d ∈ target_vars).
  { intros d Hd. apply list_elem_of_fmap in Hd as ([a b] & -> & Hin).
    apply (elem_of_zip_l _ _ _ _ Hin). }
  assert (Hsnd : forall x, x ∈ (zip target_vars online_vars).*2 -> x ∈ online_vars).
  { intros x Hx. apply list_elem_of_fmap in Hx as ([a b] & -> & Hin).
    apply (elem_of_zip_r _ _ _ _ Hin). }
  split.
  - intros Hinit.
    assert (Hnd' : NoDup (zip target_vars online_vars).*1).
    { rewrite zip_destinations. exact (sublist_NoDup _ _ Hnd (sublist_take _ _)). }
    assert (Hdisj' : forall d, d ∈ (zip target_vars online_vars).*1 ->
                               d ∉ (zip target_vars online_vars).*2).
    { intros d Hd Hx. exact (Hdisj d (Hfst d Hd) (Hsnd d Hx)). }
    assert (Hinit' : forall x, x ∈ (zip target_vars online_vars).*2 -> is_Some (s !! x)).
    { intros x Hx. apply list_elem_of_fmap in Hx as ([a b] & -> & Hin).
      apply list_elem_of_lookup in Hin as [i Hi].
      apply lookup_zip_with_Some in Hi as (a' & b' & [= -> ->] & Ha & Hb).
      apply (Hinit i); [|exact Hb]. now apply lookup_lt_Some in Ha. }
    destruct (run_assigns_spec _ s Hnd' Hdisj' Hinit') as (s' & Hrun & _ & Hframe).
    exists s'. split; [exact Hrun|]. split.
    + intros i dst Hi Hle. apply Hframe. rewrite zip_destinations.
      intros Hin. apply list_elem_of_lookup in Hin as [j Hj].
      pose proof (lookup_lt_Some _ _ _ Hj) as Hlt. rewrite length_take in Hlt.
      rewrite lookup_take_lt in Hj by lia.
      pose proof (NoDup_lookup _ _ _ _ Hnd Hi Hj). lia.
    + intros x Hx. apply Hframe. intros Hd. exact (Hdisj x (Hfst x Hd) Hx).
  - intros i dst src Hi Hj Hnone. unfold update_target.
    apply (run_assigns_missing _ s dst src).
    + apply list_elem_of_lookup. exists i.
      apply lookup_zip_with_Some. exists dst, src. auto.
    + exact Hnone.
    + intros Hd. apply (Hdisj src (Hfst _ Hd)).
      apply list_elem_of_lookup. now exists i.
Qed.

Lemma update_target_unpaired_witness :
  (exists s' : gmap string Q,
      update_target ["target/w"; "target/b"] ["online/w"] (sess (demo_world []))
      = Some s'
      /\ (forall i dst,
             ["target/w"; "target/b"] !! i = Some dst -> (length ["online/w"] <= i)%nat ->
             s' !! dst = sess (demo_world []) !! dst)
      /\ (forall x, x ∈ ["online/w"] -> s' !! x = sess (demo_world []) !! x))
  /\ update_target ["target/w"] ["online/b"] (sess (demo_world [])) = None.
Proof.
  split.
  - refine (proj1 (update_target_unpaired ["target/w"; "target/b"] ["online/w"]
                     (sess (demo_world [])) _ _) _).
    + apply NoDup_cons. split; [|apply NoDup_singleton].
      intros H. apply list_elem_of_singleton in H. discriminate.
    + intros x Hx Hy. apply list_elem_of_singleton in Hy. subst x.
      apply elem_of_cons in Hx as [Hx|Hx]; [discriminate|].
      apply list_elem_of_singleton in Hx. discriminate.
    + intros [|i] src _ [= <-]. exists 1. reflexivity.
  - refine (proj2 (update_target_unpaired ["target/w"] ["online/b"]
                     (sess (demo_world [])) (NoDup_singleton _) _)
              0%nat "target/w" "online/b" eq_refl eq_refl eq_refl).
    intros x Hx Hy. apply list_elem_of_singleton in Hx, Hy. congruence.
Defined.

(** ** Runs on the doubles *)


Lemma steps_overshoot_bounded_witness :
  (0 <= steps_taken (snd (snd overshoot_run))
   <= Z.max 0 (num_steps overshoot_config + Z.of_nat 2 - 1))%Z
  /\ (fst overshoot_run = LoopExit ->
      (num_steps overshoot_config <= steps_taken (snd (snd overshoot_run)))%Z).
Proof.
  unfold overshoot_run, demo_train.
  apply (steps_overshoot_bounded (RB := list_buffer) (PL := repeating_player)
           (fun l : list nat => l) demo_loss (99 # 100)
           ["target/w"] ["online/w"]
           ["online/w"; "target/w"; "ScheduleCounter"]
           (fun s _ => alter (fun v => v + 1) "online/w" s) ticking_clock
           (fun p => p = pair_of_steps) overshoot_config 2 10
           (demo_world pair_of_steps)).
  - intros p s ->. cbn. split; [lia|reflexivity].
  - reflexivity.
  - vm_compute. exact I.
Defined.

Lemma gradient_steps_spaced_witness :
  spaced (train_interval overshoot_config) (train_interval overshoot_config)
    (optimize_steps (log (fst (snd overshoot_run)))).
Proof.
  unfold overshoot_run, demo_train.
  apply (gradient_steps_spaced (RB := list_buffer) (PL := repeating_player)
           (fun l : list nat => l) demo_loss (99 # 100)
           ["target/w"] ["online/w"]
           ["online/w"; "target/w"; "ScheduleCounter"]
           (fun s _ => alter (fun v => v + 1) "online/w" s) ticking_clock
           overshoot_config 10 (demo_world pair_of_steps)).
  reflexivity.
Defined.

Lemma target_updates_counted_witness :
  count_updates (log (fst (snd overshoot_run)))
  = S (Z.to_nat (steps_taken (snd (snd overshoot_run)) / 2))
  /\ next_target_update (snd (snd overshoot_run))
     = (2 * (steps_taken (snd (snd overshoot_run)) / 2 + 1))%Z.
Proof.
  unfold overshoot_run, demo_train.
  apply (target_updates_counted (RB := list_buffer) (PL := repeating_player)
           (fun l : list nat => l) demo_loss (99 # 100)
           ["target/w"] ["online/w"]
           ["online/w"; "target/w"; "ScheduleCounter"]
           (fun s _ => alter (fun v => v + 1) "online/w" s) ticking_clock
           overshoot_config 2 10 (demo_world pair_of_steps)).
  - reflexivity.
  - lia.
  - reflexivity.
  - vm_compute. exact I.
Defined.


Lemma no_checkpoint_without_interval_witness :
  saves (log (fst (snd (demo_train ticking_clock 13 cadence_config
                          (demo_world [final_step 0])))))
  = saves (log (demo_world [final_step 0]))
  /\ disk (fst (snd (demo_train ticking_clock 13 cadence_config
                       (demo_world [final_step 0]))))
     = disk (demo_world [final_step 0])
  /\ dirs (fst (snd (demo_train ticking_clock 13 cadence_config
                       (demo_world [final_step 0]))))
     = dirs (demo_world [final_step 0]).
Proof.
  unfold demo_train.
  apply (no_checkpoint_without_interval (RB := list_buffer) (PL := repeating_player)
           (fun l : list nat => l) demo_loss (99 # 100)
           ["target/w"] ["online/w"]
           ["online/w"; "target/w"; "ScheduleCounter"]
           (fun s _ => alter (fun v => v + 1) "online/w" s) ticking_clock
           cadence_config 13 (demo_world [final_step 0])).
  left. reflexivity.
Defined.

Lemma clock_reads_counted_witness :
  time_calls (fst (snd overshoot_run))
  = (S (time_calls (demo_world pair_of_steps))
     + match timeout overshoot_config with
       | Some _ => length (pulls (log (fst (snd overshoot_run))))
                   + match fst overshoot_run with TimedOut => 1 | _ => 0 end
       | None => 0
       end)%nat
  /\ (timeout overshoot_config = None -> fst overshoot_run = TimedOut -> False).
Proof.
  unfold overshoot_run, demo_train.
  apply (clock_reads_counted (RB := list_buffer) (PL := repeating_player)
           (fun l : list nat => l) demo_loss (99 # 100)
           ["target/w"] ["online/w"]
           ["online/w"; "target/w"; "ScheduleCounter"]
           (fun s _ => alter (fun v => v + 1) "online/w" s) ticking_clock
           overshoot_config 10 (demo_world pair_of_steps)).
  - reflexivity.
  - vm_compute. exact I.
Defined.

Lemma rewards_booked_witness :
  env_rewards (snd (snd overshoot_run)) !! 0%nat = Some (total_reward (final_step 0)).
Proof.
  refine (proj1 (proj2
            (rewards_booked (RB := list_buffer) (PL := repeating_player)
               (fun l : list nat => l) demo_loss (99 # 100)
               ["target/w"] ["online/w"]
               ["online/w"; "target/w"; "ScheduleCounter"]
               (fun s _ => alter (fun v => v + 1) "online/w" s) ticking_clock
               overshoot_config 10 (demo_world pair_of_steps) eq_refl _))
            [plain_step; final_step 0; plain_step; final_step 0; plain_step]
            (final_step 0) [] 0%nat _ eq_refl _).
  - vm_compute. exact I.
  - vm_compute. reflexivity.
  - intros t' Ht'. inversion Ht'.
Defined.

